(** * Import dumping of the hadesmem [dump] example

    A shallow embedding of [examples/dump/imports.cpp]: the helpers
    [HasValidNonEmptyBoundImportDescList] and [DumpImportThunk] and the
    per-descriptor loop of [DumpImports], followed by the properties of the
    import analysis that the specification states about them.

    The program writes text to [std::wcout] and records warnings with
    [WarnForCurrentFile].  Both effects are modelled by one ordered log of
    [Output] items that every function returns; the loops with [break] and
    [continue] return a [Control] value next to their log, and the counters
    the loops update are passed explicitly. *)

From Stdlib Require Import String ZArith List Bool Lia.
Import ListNotations.
Local Open Scope Z_scope.

(** ** Machine integers *)

(** [DWORD] is an unsigned 32-bit integer, [std::size_t] an unsigned integer
    of the pointer width; both are carried by [Z]. *)
Definition DWORD := Z.

(** [static_cast<DWORD>(z)], the wrap-around to 32 bits. *)
Definition static_cast_DWORD (z : Z) : DWORD := z mod 2 ^ 32.

(** ** The PE library the dumper is written against *)

Module hadesmem.

(** [hadesmem::PeFileType]. *)
Inductive PeFileType := Image | Data.

(** Modelled from the spec: [hadesmem::ImportThunk], declared in
    [hadesmem/pelib/import_thunk.hpp] which is not among the sources.  A
    thunk is its raw [IMAGE_THUNK_DATA] value; the interpretation (bound
    address, ordinal, RVA of a hint/name record) is chosen by the caller.
    By ordinal means the high bit is set, the ordinal being the low 16 bits
    (32-bit image). *)
Record ImportThunk := { u1 : DWORD }.

Definition GetFunction (thunk : ImportThunk) : DWORD := u1 thunk.
Definition GetOrdinalRaw (thunk : ImportThunk) : DWORD := u1 thunk.
Definition GetAddressOfData (thunk : ImportThunk) : DWORD := u1 thunk.
Definition ByOrdinal (thunk : ImportThunk) : bool := Z.testbit (u1 thunk) 31.
Definition GetOrdinal (thunk : ImportThunk) : Z := Z.land (u1 thunk) 65535.

(** [hadesmem::ImportDir] as the loop of [DumpImports] sees it: the five
    fields of the descriptor and the results of the two queries the loop
    makes on it.  [GetName] is [None] when the call throws. *)
Record ImportDir := {
  GetOriginalFirstThunk : DWORD;
  GetTimeDateStamp : DWORD;
  GetForwarderChain : DWORD;
  GetNameRaw : DWORD;
  GetFirstThunk : DWORD;
  IsTlsAoiTerminated : bool;
  GetName : option string
}.

(** [hadesmem::BoundImportDir]: one entry of the bound import directory. *)
Record BoundImportDir := {
  BoundTimeDateStamp : DWORD;
  OffsetModuleName : Z;
  NumberOfModuleForwarderRefs : Z
}.

(** The inspected image, as far as [imports.cpp] reads it (the [process]
    and [pe_file] arguments together).
    - [RvaToVa rva] is [None] when [hadesmem::RvaToVa] returns null;
    - [ThunkData va] are the raw thunk values readable from [va] onwards;
    - [GetHint rva] and [GetName rva] are what [ImportThunk::GetHint] and
      [ImportThunk::GetName] return for a thunk whose address of data is
      [rva], [None] when the call throws;
    - [ImportDirList] and [BoundImportDirList] are the sequences the two
      directory iterators yield. *)
Record PeFile := {
  GetType : PeFileType;
  RvaToVa : DWORD -> option Z;
  ThunkData : Z -> list DWORD;
  GetHint : DWORD -> option Z;
  GetThunkName : DWORD -> option string;
  ImportDirList : list ImportDir;
  BoundImportDirList : list BoundImportDir
}.

(** Modelled from the spec: the thunk reader behind
    [hadesmem::ImportThunkList] ([hadesmem/pelib/import_thunk_list.hpp] is
    not among the sources).  The sequence ends at the first raw value that
    is exactly zero (or where the readable data ends).  The ceiling of 1000
    thunks is not part of the reader: in the source it is the test
    [count++ == 1000] of the loop that consumes the sequence. *)
Fixpoint read_thunks (raw : list DWORD) : list ImportThunk :=
  match raw with
  | [] => []
  | v :: rest => if v =? 0 then [] else {| u1 := v |} :: read_thunks rest
  end.

(** Modelled from the spec: [hadesmem::ImportThunkList(process, pe_file,
    rva)]; an unmappable address yields zero thunks, not an error. *)
Definition ImportThunkList (pe_file : PeFile) (rva : DWORD)
  : list ImportThunk :=
  match RvaToVa pe_file rva with
  | None => []
  | Some va => read_thunks (ThunkData pe_file va)
  end.

End hadesmem.
Import hadesmem.

(** ** The output of the dumper *)

(** [WarningType] of [main.hpp]. *)
Inductive WarningType := kSuspicious | kUnsupported.

(** The informational lines written to [std::wcout], one constructor per
    output statement, carrying the value printed. *)
Inductive Line :=
| LNewline                          (* "\n" *)
| LImportDirs                       (* "\n\tImport Dirs:\n" *)
| LOriginalFirstThunk (v : DWORD)   (* "\t\tOriginalFirstThunk: " *)
| LTimeDateStamp (v : DWORD)        (* "\t\tTimeDateStamp: " *)
| LForwarderChain (v : DWORD)       (* "\t\tForwarderChain: " *)
| LNameRaw (v : DWORD)              (* "\t\tName (Raw): " *)
| LName (s : string)                (* "\t\tName: " *)
| LFirstThunk (v : DWORD)           (* "\t\tFirstThunk: " *)
| LImportThunks (use_ilt : bool)    (* "\n\t\tImport Thunks (ILT|IAT):\n" *)
| LImportThunksIAT                  (* "\n\t\tImport Thunks (IAT):\n" *)
| LFunction (v : DWORD)             (* "\t\t\tFunction: " *)
| LOrdinalRaw (v : DWORD)           (* "\t\t\tOrdinalRaw: " *)
| LOrdinal (v : Z)                  (* "\t\t\tOrdinal: " *)
| LAddressOfData (v : DWORD)        (* "\t\t\tAddressOfData: " *)
| LHint (v : Z)                     (* "\t\t\tHint: " *)
| LThunkName (s : string).          (* "\t\t\tName: " *)

(** The "WARNING!" lines, one constructor per warning site. *)
Inductive WarningMessage :=
| WEmptyImportDir           (* "Empty or invalid import directory." *)
| WTlsAoiTrick              (* "Detected TLS AOI trick! ..." *)
| WIat (iat_valid : bool)   (* "IAT is empty." / "IAT is invalid." *)
| WImportDirCeiling         (* "Processed 1000 import dirs. ..." *)
| WNewStyleBoundInvalidIlt  (* "Detected new style bound imports with an
                               invalid ILT. Currently unhandled." *)
| WForwarderChain           (* "Detected old style forwarder chain. ..." *)
| WFailedToReadName         (* "Failed to read name." *)
| WIlt (ilt_valid : bool)   (* "ILT is empty." / "ILT is invalid." *)
| WImportThunkCeiling       (* "Processed 1000 import thunks. ..." *)
| WIatSizeMismatch          (* "IAT size does not match ILT size. ..." *)
| WInvalidThunkName.        (* "Invalid import thunk name data." *)

(** One item of the log.  Every call of [WarnForCurrentFile] in the file
    directly follows the output of its warning line, so the two statements
    form one [Warning] item: the line written and the type recorded. *)
Inductive Output :=
| Wcout (l : Line)
| Warning (m : WarningMessage) (t : WarningType).

(** How a loop body ends: by reaching its end or [continue], or by [break]. *)
Inductive Control := Continue | Break.

Definition WarningType_eq_dec (a b : WarningType) : {a = b} + {a <> b}.
Proof. decide equality. Defined.

Definition Line_eq_dec (a b : Line) : {a = b} + {a <> b}.
Proof.
  decide equality;
    solve [ apply Z.eq_dec | apply string_dec | apply bool_dec ].
Defined.

Definition WarningMessage_eq_dec (a b : WarningMessage) : {a = b} + {a <> b}.
Proof. decide equality; apply bool_dec. Defined.

Definition Output_eq_dec (a b : Output) : {a = b} + {a <> b}.
Proof.
  decide equality;
    solve [ apply Line_eq_dec | apply WarningMessage_eq_dec
          | apply WarningType_eq_dec ].
Defined.

(** Number of warnings with message [m] recorded with type [t] in a log. *)
Definition count_warning (m : WarningMessage) (t : WarningType)
  (log : list Output) : nat :=
  count_occ Output_eq_dec log (Warning m t).

(** The types of all warnings recorded in a log, in order. *)
Fixpoint recorded (log : list Output) : list WarningType :=
  match log with
  | [] => []
  | Wcout _ :: rest => recorded rest
  | Warning _ t :: rest => t :: recorded rest
  end.

Definition is_some {A} (o : option A) : bool :=
  match o with Some _ => true | None => false end.

Definition is_empty {A} (l : list A) : bool :=
  match l with [] => true | _ :: _ => false end.

(** ** [imports.cpp] *)

Section Imports.

Variable pe_file : PeFile.

(** [HasValidNonEmptyBoundImportDescList]:
    [std::begin(bound_import_dirs) != std::end(bound_import_dirs)]. *)
Definition HasValidNonEmptyBoundImportDescList : bool :=
  negb (is_empty (BoundImportDirList pe_file)).

(** [DumpImportThunk(thunk, is_bound)].  The [is_bound] test comes first;
    the three reads of the by-name branch sit in one [try] block whose
    handler records the warning. *)
Definition DumpImportThunk (thunk : ImportThunk) (is_bound : bool)
  : list Output :=
  Wcout LNewline ::
  (let by_ordinal := ByOrdinal thunk in
   if is_bound then
     [Wcout (LFunction (GetFunction thunk))]
   else if by_ordinal then
     [Wcout (LOrdinalRaw (GetOrdinalRaw thunk));
      Wcout (LOrdinal (GetOrdinal thunk))]
   else
     Wcout (LAddressOfData (GetAddressOfData thunk)) ::
     match GetHint pe_file (GetAddressOfData thunk) with
     | None => [Warning WInvalidThunkName kUnsupported]
     | Some hint =>
         Wcout (LHint hint) ::
         match GetThunkName pe_file (GetAddressOfData thunk) with
         | None => [Warning WInvalidThunkName kUnsupported]
         | Some name => [Wcout (LThunkName name)]
         end
     end).

(** The locals of the loop body of [DumpImports], as functions of the
    descriptor. *)
Definition iat (dir : ImportDir) : DWORD := GetFirstThunk dir.
Definition iat_valid (dir : ImportDir) : bool :=
  is_some (RvaToVa pe_file (iat dir)).
Definition ilt (dir : ImportDir) : DWORD := GetOriginalFirstThunk dir.
Definition use_ilt (dir : ImportDir) : bool :=
  negb (ilt dir =? 0) && negb (ilt dir =? iat dir).
Definition ilt_thunks (dir : ImportDir) : list ImportThunk :=
  ImportThunkList pe_file (if use_ilt dir then ilt dir else iat dir).
Definition ilt_empty (dir : ImportDir) : bool := is_empty (ilt_thunks dir).
Definition ilt_valid (dir : ImportDir) : bool :=
  is_some (RvaToVa pe_file (ilt dir)).
Definition iat_thunks (dir : ImportDir) : list ImportThunk :=
  ImportThunkList pe_file (iat dir).

Definition is_bound (dir : ImportDir) : bool :=
  negb (GetTimeDateStamp dir =? 0).
Definition is_image : bool :=
  match GetType pe_file with Image => true | Data => false end.
Definition is_memory_bound (dir : ImportDir) : bool :=
  is_image && negb (use_ilt dir).
Definition is_ilt_bound (dir : ImportDir) : bool :=
  (is_bound dir && negb (use_ilt dir)) || is_memory_bound dir.
Definition is_iat_bound (dir : ImportDir) : bool :=
  is_bound dir || is_image.

(** Lines 163-194: the first three fields and their two warnings. *)
Definition DumpDirStamps (dir : ImportDir) : list Output :=
  Wcout (LOriginalFirstThunk (GetOriginalFirstThunk dir)) ::
  (let time_date_stamp := GetTimeDateStamp dir in
   Wcout (LTimeDateStamp time_date_stamp) ::
   (if time_date_stamp =? static_cast_DWORD (-1) then
      if negb (ilt_valid dir) && HasValidNonEmptyBoundImportDescList then
        [Warning WNewStyleBoundInvalidIlt kUnsupported]
      else []
    else []) ++
   (let forwarder_chain := GetForwarderChain dir in
    Wcout (LForwarderChain forwarder_chain) ::
    (if negb (forwarder_chain =? 0)
        && negb (forwarder_chain =? static_cast_DWORD (-1)) then
       [Warning WForwarderChain kUnsupported]
     else []))).

(** Lines 195-216: the name, read in a [try] block, and the IAT RVA. *)
Definition DumpDirName (dir : ImportDir) : list Output :=
  Wcout (LNameRaw (GetNameRaw dir)) ::
  match GetName dir with
  | Some name => Wcout (LName name)
  | None => Warning WFailedToReadName kSuspicious
  end ::
  [Wcout (LFirstThunk (GetFirstThunk dir))].

(** Lines 222-235: the heading of the structural thunk walk. *)
Definition DumpThunksHeading (dir : ImportDir) : list Output :=
  if ilt_empty dir then [Warning (WIlt (ilt_valid dir)) kSuspicious]
  else [Wcout (LImportThunks (use_ilt dir))].

(** Lines 253-275: the loop over [ilt_thunks].  [count] is the counter of
    the same name; its final value is returned because the IAT pass reads
    it.  [is_ilt_bound] is computed but cast to [void]: every thunk is
    dumped with [false]. *)
Fixpoint DumpIltThunks (count : Z) (thunks : list ImportThunk)
  : list Output * Z :=
  match thunks with
  | [] => ([], count)
  | thunk :: rest =>
      if count =? 1000 then
        ([Warning WImportThunkCeiling kUnsupported], count + 1)
      else
        let (log, count') := DumpIltThunks (count + 1) rest in
        (DumpImportThunk thunk false ++ log, count')
  end.

(** Lines 288-311: the loop over the IAT thunks of the second pass.
    [count--] runs only when [ilt_valid] holds; the decrement that wraps
    around, at [count = 0], is the one followed by [break]. *)
Fixpoint DumpIatThunks (dir : ImportDir) (count : Z)
  (thunks : list ImportThunk) : list Output :=
  match thunks with
  | [] => []
  | thunk :: rest =>
      if ilt_valid dir && (count =? 0) then
        [Warning WIatSizeMismatch kSuspicious]
      else
        DumpImportThunk thunk
          ((is_iat_bound dir && ilt_valid dir) || negb (ilt_empty dir)) ++
        DumpIatThunks dir (if ilt_valid dir then count - 1 else count) rest
  end.

(** Lines 280-312: the separate IAT pass. *)
Definition DumpIatPass (dir : ImportDir) (count : Z) : list Output :=
  if use_ilt dir && negb (iat dir =? 0) then
    (if negb (is_empty (iat_thunks dir)) then [Wcout LImportThunksIAT]
     else []) ++
    DumpIatThunks dir count (iat_thunks dir)
  else [].

(** Lines 253-312: the two thunk loops, the second reading the counter the
    first leaves. *)
Definition DumpDirThunks (dir : ImportDir) : list Output :=
  let (log, count) := DumpIltThunks 0 (ilt_thunks dir) in
  log ++ DumpIatPass dir count.

(** Lines 163-312: what is done for a descriptor that is neither the
    virtual terminator, nor skipped, nor beyond the ceiling. *)
Definition DumpDirBody (dir : ImportDir) : list Output :=
  DumpDirStamps dir ++ DumpDirName dir ++ DumpThunksHeading dir ++
  DumpDirThunks dir.

(** One iteration of [for (auto const& dir : import_dirs)]:
    the log, how the iteration ends, and [num_import_dirs] afterwards. *)
Definition DumpImportDir (num_import_dirs : DWORD) (dir : ImportDir)
  : list Output * Control * DWORD :=
  if IsTlsAoiTerminated dir then
    ([Wcout LNewline; Warning WTlsAoiTrick kSuspicious],
     Break, num_import_dirs)
  else if is_empty (iat_thunks dir) then
    ([Wcout LNewline; Warning (WIat (iat_valid dir)) kSuspicious],
     Continue, num_import_dirs)
  else if num_import_dirs =? 1000 then
    ([Wcout LNewline; Warning WImportDirCeiling kUnsupported],
     Break, static_cast_DWORD (num_import_dirs + 1))
  else
    (Wcout LNewline :: DumpDirBody dir,
     Continue, static_cast_DWORD (num_import_dirs + 1)).

(** The loop over the descriptors. *)
Fixpoint DumpImportDirs (num_import_dirs : DWORD) (dirs : list ImportDir)
  : list Output :=
  match dirs with
  | [] => []
  | dir :: rest =>
      match DumpImportDir num_import_dirs dir with
      | (log, Break, _) => log
      | (log, Continue, num') => log ++ DumpImportDirs num' rest
      end
  end.

(** [DumpImports(process, pe_file)]. *)
Definition DumpImports : list Output :=
  (if negb (is_empty (ImportDirList pe_file)) then [Wcout LImportDirs]
   else [Warning WEmptyImportDir kSuspicious]) ++
  DumpImportDirs 0 (ImportDirList pe_file).

End Imports.


(** ** Vocabulary of the statements *)

(** The log of [DumpImportThunk] called on each thunk of a list in turn with
    one [is_bound] argument: what a walk over exactly these thunks writes. *)
Definition dumped (pe_file : PeFile) (is_bound : bool)
  (thunks : list ImportThunk) : list Output :=
  flat_map (fun thunk => DumpImportThunk pe_file thunk is_bound) thunks.

(** The thunks of given raw values. *)
Definition thunks_of (raw : list DWORD) : list ImportThunk :=
  map (fun v => {| u1 := v |}) raw.

(** A log whose warnings all carry a message of [allowed]. *)
Definition warns_only (allowed : list WarningMessage) (log : list Output)
  : Prop :=
  Forall (fun o => match o with
                   | Wcout _ => True
                   | Warning m _ => In m allowed
                   end) log.

(** The descriptor reaches the field dump of the loop body: it is not the
    virtual terminator, its IAT is not empty, and the ceiling is not hit. *)
Definition processed (pe_file : PeFile) (num_import_dirs : DWORD)
  (dir : ImportDir) : Prop :=
  IsTlsAoiTerminated dir = false /\
  iat_thunks pe_file dir <> [] /\
  num_import_dirs <> 1000.

(** The descriptor is skipped by the empty-IAT test. *)
Definition skipped (pe_file : PeFile) (dir : ImportDir) : bool :=
  is_empty (iat_thunks pe_file dir).

(** The warnings each part of the loop body can record. *)
Definition stamp_warnings : list WarningMessage :=
  [WNewStyleBoundInvalidIlt; WForwarderChain].
Definition thunk_warnings : list WarningMessage :=
  [WIlt true; WIlt false; WInvalidThunkName; WImportThunkCeiling;
   WIatSizeMismatch].
Definition body_warnings : list WarningMessage :=
  stamp_warnings ++ WFailedToReadName :: thunk_warnings.

(** The warnings an iteration that does not leave the loop can record. *)
Definition continue_warnings : list WarningMessage :=
  WIat true :: WIat false :: body_warnings.

(** ** Sample images *)

(** An image file with two mappable thunk tables, [table1] at RVA [0x1000]
    and [table2] at RVA [0x2000]; every other RVA is unmappable.  Only the
    hint/name record at RVA [0x3000] is readable. *)
Definition sample_image (table1 table2 : list DWORD)
  (dirs : list ImportDir) (bound : list BoundImportDir) : PeFile :=
  {| GetType := Data;
     RvaToVa := fun rva =>
       if rva =? 0x1000 then Some 0x401000
       else if rva =? 0x2000 then Some 0x402000 else None;
     ThunkData := fun va =>
       if va =? 0x401000 then table1
       else if va =? 0x402000 then table2 else [];
     GetHint := fun rva => if rva =? 0x3000 then Some 7 else None;
     GetThunkName := fun rva =>
       if rva =? 0x3000 then Some "CreateFileW"%string else None;
     ImportDirList := dirs;
     BoundImportDirList := bound |}.

(** A descriptor with the given ILT RVA, time stamp and IAT RVA. *)
Definition descriptor (original_first_thunk time_date_stamp first_thunk : DWORD)
  : ImportDir :=
  {| GetOriginalFirstThunk := original_first_thunk;
     GetTimeDateStamp := time_date_stamp;
     GetForwarderChain := 0;
     GetNameRaw := 0x4000;
     GetFirstThunk := first_thunk;
     IsTlsAoiTerminated := false;
     GetName := Some "kernel32.dll"%string |}.

(** The same descriptor with another result of the name query. *)
Definition with_name (name : option string) (dir : ImportDir) : ImportDir :=
  {| GetOriginalFirstThunk := GetOriginalFirstThunk dir;
     GetTimeDateStamp := GetTimeDateStamp dir;
     GetForwarderChain := GetForwarderChain dir;
     GetNameRaw := GetNameRaw dir;
     GetFirstThunk := GetFirstThunk dir;
     IsTlsAoiTerminated := IsTlsAoiTerminated dir;
     GetName := name |}.

(** The same descriptor with an unreadable name. *)
Definition nameless (dir : ImportDir) : ImportDir := with_name None dir.

(** The same descriptor detected as the virtual terminator. *)
Definition tls_terminated (dir : ImportDir) : ImportDir :=
  {| GetOriginalFirstThunk := GetOriginalFirstThunk dir;
     GetTimeDateStamp := GetTimeDateStamp dir;
     GetForwarderChain := GetForwarderChain dir;
     GetNameRaw := GetNameRaw dir;
     GetFirstThunk := GetFirstThunk dir;
     IsTlsAoiTerminated := true;
     GetName := GetName dir |}.

Definition bound_entry : BoundImportDir :=
  {| BoundTimeDateStamp := 0x4a5bc000;
     OffsetModuleName := 16;
     NumberOfModuleForwarderRefs := 0 |}.

(** A new-style bound descriptor without ILT, its IAT holding one by-name
    thunk, in an image without ([no_bound_dir_image]) and with
    ([bound_dir_image]) a bound import directory. *)
Definition new_style_dir : ImportDir :=
  descriptor 0 (static_cast_DWORD (-1)) 0x2000.
Definition no_bound_dir_image : PeFile :=
  sample_image [] [0x3000; 0] [new_style_dir] [].
Definition bound_dir_image : PeFile :=
  sample_image [] [0x3000; 0] [new_style_dir] [bound_entry].

(** An old-style bound descriptor without ILT whose IAT holds the ordinal
    thunk [0x80000005]. *)
Definition old_bound_dir : ImportDir := descriptor 0 0x4a5bc000 0x2000.
Definition old_bound_image : PeFile :=
  sample_image [] [0x80000005; 0] [old_bound_dir] [].

(** A descriptor whose ILT RVA is unmappable and whose IAT holds [n]
    thunks. *)
Definition invalid_ilt_dir : ImportDir := descriptor 0x9000 0 0x2000.
Definition invalid_ilt_image (n : nat) : PeFile :=
  sample_image [] (repeat 0x3000 n ++ [0]) [invalid_ilt_dir] [].

(** A descriptor with a valid ILT of one thunk and an IAT of three. *)
Definition mismatch_dir : ImportDir := descriptor 0x1000 0 0x2000.
Definition mismatch_image : PeFile :=
  sample_image [0x3000; 0] [0x3000; 0x3000; 0x3000; 0] [mismatch_dir] [].

(** A descriptor whose IAT RVA is unmappable, and a table of [n] of them. *)
Definition empty_iat_dir : ImportDir := descriptor 0 0 0x9000.
Definition skipped_image (n : nat) : PeFile :=
  sample_image [] [] (repeat empty_iat_dir n) [].

(** A table of [n] descriptors that are all processed. *)
Definition crowded_image (n : nat) : PeFile :=
  sample_image [] [0x3000; 0] (repeat (descriptor 0 0 0x2000) n) [].

(** A table whose second descriptor is the virtual terminator. *)
Definition vterm_image : PeFile :=
  sample_image [] [0x3000; 0]
    [descriptor 0 0 0x2000; tls_terminated (descriptor 0 0 0x2000);
     descriptor 0 0 0x2000] [].

(** A descriptor whose ILT equals its IAT, and one with an unreadable name
    whose IAT holds a thunk with unreadable name data. *)
Definition same_thunks_dir : ImportDir := descriptor 0x2000 0 0x2000.
Definition same_thunks_image : PeFile :=
  sample_image [] [0x3000; 0] [same_thunks_dir] [].
Definition bad_names_dir : ImportDir := nameless (descriptor 0 0 0x2000).
Definition bad_names_image : PeFile :=
  sample_image [] [0x5000; 0x3000; 0] [bad_names_dir] [].

(** The same image with another file type. *)
Definition with_type (type : PeFileType) (pe_file : PeFile) : PeFile :=
  {| GetType := type;
     RvaToVa := RvaToVa pe_file;
     ThunkData := ThunkData pe_file;
     GetHint := GetHint pe_file;
     GetThunkName := GetThunkName pe_file;
     ImportDirList := ImportDirList pe_file;
     BoundImportDirList := BoundImportDirList pe_file |}.

(** The same descriptor with another forwarder chain. *)
Definition with_forwarder_chain (forwarder_chain : DWORD) (dir : ImportDir)
  : ImportDir :=
  {| GetOriginalFirstThunk := GetOriginalFirstThunk dir;
     GetTimeDateStamp := GetTimeDateStamp dir;
     GetForwarderChain := forwarder_chain;
     GetNameRaw := GetNameRaw dir;
     GetFirstThunk := GetFirstThunk dir;
     IsTlsAoiTerminated := IsTlsAoiTerminated dir;
     GetName := GetName dir |}.

(** A descriptor with a valid ILT of two thunks (one by name, one by
    ordinal) and an IAT of two thunks holding arbitrary values. *)
Definition matched_dir : ImportDir := descriptor 0x1000 0 0x2000.
Definition matched_image : PeFile :=
  sample_image [0x3000; 0x80000005; 0] [0x11111111; 0xFFFFFFFF; 0]
    [matched_dir; matched_dir] [].

(** A descriptor whose valid ILT holds 1001 thunks and whose IAT holds
    1002. *)
Definition long_ilt_image : PeFile :=
  sample_image (repeat 0x3000 1001 ++ [0]) (repeat 0x3000 1002 ++ [0])
    [matched_dir] [].

(** ** More vocabulary *)

(** The thunk needs no name data or has it readable: dumping it unbound
    records no warning. *)
Definition named (pe_file : PeFile) (thunk : ImportThunk) : Prop :=
  ByOrdinal thunk = true \/
  (GetHint pe_file (GetAddressOfData thunk) <> None /\
   GetThunkName pe_file (GetAddressOfData thunk) <> None).

(** A descriptor none of whose tests in the loop body of [DumpImports] asks
    for a warning. *)
Definition well_formed (pe_file : PeFile) (dir : ImportDir) : Prop :=
  IsTlsAoiTerminated dir = false /\
  iat_thunks pe_file dir <> [] /\
  (GetTimeDateStamp dir = static_cast_DWORD (-1) ->
   ilt_valid pe_file dir = false ->
   BoundImportDirList pe_file = []) /\
  (GetForwarderChain dir = 0 \/
   GetForwarderChain dir = static_cast_DWORD (-1)) /\
  GetName dir <> None /\
  ilt_thunks pe_file dir <> [] /\
  (length (ilt_thunks pe_file dir) <= 1000)%nat /\
  Forall (named pe_file) (ilt_thunks pe_file dir) /\
  (use_ilt dir = true ->
   (length (iat_thunks pe_file dir) <= length (ilt_thunks pe_file dir))%nat).

(** The type with which each warning message is recorded. *)
Definition severity (m : WarningMessage) : WarningType :=
  match m with
  | WEmptyImportDir | WTlsAoiTrick | WIat _ | WFailedToReadName | WIlt _
  | WIatSizeMismatch => kSuspicious
  | WImportDirCeiling | WNewStyleBoundInvalidIlt | WForwarderChain
  | WImportThunkCeiling | WInvalidThunkName => kUnsupported
  end.

(** A log all of whose warnings satisfy [P]. *)
Definition warnings_all (P : WarningMessage -> WarningType -> Prop)
  (log : list Output) : Prop :=
  Forall (fun o => match o with
                   | Wcout _ => True
                   | Warning m t => P m t
                   end) log.

(** A log each of whose warnings has the type of its message. *)
Definition typed (log : list Output) : Prop :=
  warnings_all (fun m t => t = severity m) log.

(** ** [DumpBoundImports] *)

(** [IMAGE_BOUND_FORWARDER_REF], the element type of the vector that
    [BoundImportDir::GetModuleForwarderRefs] returns. *)
Module Forwarder.

Record IMAGE_BOUND_FORWARDER_REF := {
  TimeDateStamp : DWORD;
  OffsetModuleName : Z;
  Reserved : Z
}.

End Forwarder.

(** [hadesmem::NtHeaders(process, pe_file)], as far as [HasBoundImportDir]
    reads it. *)
Record NtHeaders := {
  GetNumberOfRvaAndSizes : DWORD;
  GetDataDirectoryVirtualAddress : Z -> DWORD
}.

(** Modelled from the spec: [hadesmem::PeDataDir::BoundImport], whose
    declaration is not among the sources; the directory index that the
    "declared directory count" gates is the Windows constant
    [IMAGE_DIRECTORY_ENTRY_BOUND_IMPORT]. *)
Definition PeDataDir_BoundImport : Z := 11.

(** What the three reading members of [hadesmem::BoundImportDir] give on the
    inspected image; [None] when the call throws. *)
Record BoundImportQueries := {
  GetModuleName : BoundImportDir -> option string;
  GetModuleForwarderRefs :
    BoundImportDir -> option (list Forwarder.IMAGE_BOUND_FORWARDER_REF);
  GetNameForModuleForwarderRef :
    BoundImportDir -> Forwarder.IMAGE_BOUND_FORWARDER_REF -> option string
}.

(** The lines [DumpBoundImports] writes. *)
Inductive BoundLine :=
| BBoundImportDirs                       (* "\n\tBound Import Dirs:\n" *)
| BNewline                               (* "\n" *)
| BTimeDateStamp (v : DWORD)             (* "\t\tTimeDateStamp: " *)
| BOffsetModuleName (v : Z)              (* "\t\tOffsetModuleName: " *)
| BModuleName (s : string)               (* "\t\tModuleName: " *)
| BNumberOfModuleForwarderRefs (v : Z)   (* "\t\tNumberOfModuleForwarderRefs: " *)
| BModuleForwarderRefs                   (* "\t\tModule Forwarder Refs:\n" *)
| BFwdTimeDateStamp (v : DWORD)          (* "\t\t\tTimeDateStamp: " *)
| BFwdOffsetModuleName (v : Z)           (* "\t\t\tOffsetModuleName: " *)
| BFwdModuleName (s : string)            (* "\t\t\tModuleName: " *)
| BFwdReserved (v : Z).                  (* "\t\t\tReserved: " *)

(** One item of the log of [DumpBoundImports]; its only warning is
    "Empty or invalid bound import directory." *)
Inductive BoundOutput :=
| BWcout (l : BoundLine)
| BWarning (t : WarningType).

(** How a function without handler ends: by returning, or by the exception
    that one of its reads threw. *)
Inductive Outcome := Returned | Threw.

Section BoundImports.

Variable nt_headers : NtHeaders.
Variable queries : BoundImportQueries.
Variable pe_file : PeFile.

(** [HasBoundImportDir]. *)
Definition HasBoundImportDir : bool :=
  (GetNumberOfRvaAndSizes nt_headers >? PeDataDir_BoundImport)
  && negb (GetDataDirectoryVirtualAddress nt_headers PeDataDir_BoundImport
           =? 0).

(** Lines 357-367: the loop over the forwarder references of [dir].  The
    name is read between the second and the third output. *)
Fixpoint DumpForwarderRefs (dir : BoundImportDir)
  (forwarder_refs : list Forwarder.IMAGE_BOUND_FORWARDER_REF)
  : list BoundOutput * Outcome :=
  match forwarder_refs with
  | [] => ([], Returned)
  | forwarder :: rest =>
      match GetNameForModuleForwarderRef queries dir forwarder with
      | None =>
          ([BWcout (BFwdTimeDateStamp (Forwarder.TimeDateStamp forwarder));
            BWcout (BFwdOffsetModuleName
                      (Forwarder.OffsetModuleName forwarder))],
           Threw)
      | Some name =>
          let (log, outcome) := DumpForwarderRefs dir rest in
          ([BWcout (BFwdTimeDateStamp (Forwarder.TimeDateStamp forwarder));
            BWcout (BFwdOffsetModuleName
                      (Forwarder.OffsetModuleName forwarder));
            BWcout (BFwdModuleName name);
            BWcout (BFwdReserved (Forwarder.Reserved forwarder))] ++ log,
           outcome)
      end
  end.

(** Lines 343-367: one iteration of the loop over the bound import
    descriptors. *)
Definition DumpBoundImportDir (dir : BoundImportDir)
  : list BoundOutput * Outcome :=
  match GetModuleName queries dir with
  | None =>
      ([BWcout BNewline;
        BWcout (BTimeDateStamp (BoundTimeDateStamp dir));
        BWcout (BOffsetModuleName (OffsetModuleName dir))],
       Threw)
  | Some name =>
      match GetModuleForwarderRefs queries dir with
      | None =>
          ([BWcout BNewline;
            BWcout (BTimeDateStamp (BoundTimeDateStamp dir));
            BWcout (BOffsetModuleName (OffsetModuleName dir));
            BWcout (BModuleName name);
            BWcout (BNumberOfModuleForwarderRefs
                      (NumberOfModuleForwarderRefs dir))],
           Threw)
      | Some forwarder_refs =>
          let (log, outcome) := DumpForwarderRefs dir forwarder_refs in
          ([BWcout BNewline;
            BWcout (BTimeDateStamp (BoundTimeDateStamp dir));
            BWcout (BOffsetModuleName (OffsetModuleName dir));
            BWcout (BModuleName name);
            BWcout (BNumberOfModuleForwarderRefs
                      (NumberOfModuleForwarderRefs dir))] ++
           (if negb (is_empty forwarder_refs)
            then [BWcout BModuleForwarderRefs] else []) ++
           log,
           outcome)
      end
  end.

(** Lines 341-368: the loop; an exception leaves it. *)
Fixpoint DumpBoundImportDirs (dirs : list BoundImportDir)
  : list BoundOutput * Outcome :=
  match dirs with
  | [] => ([], Returned)
  | dir :: rest =>
      match DumpBoundImportDir dir with
      | (log, Threw) => (log, Threw)
      | (log, Returned) =>
          let (log', outcome) := DumpBoundImportDirs rest in
          (log ++ log', outcome)
      end
  end.

(** [DumpBoundImports(process, pe_file)]. *)
Definition DumpBoundImports : list BoundOutput * Outcome :=
  if negb HasBoundImportDir then ([], Returned)
  else
    let bound_import_dirs := BoundImportDirList pe_file in
    let (log, outcome) := DumpBoundImportDirs bound_import_dirs in
    ((if negb (is_empty bound_import_dirs) then [BWcout BBoundImportDirs]
      else [BWarning kSuspicious]) ++ log,
     outcome).

End BoundImports.

(** The warnings recorded in a log of [DumpBoundImports]. *)
Fixpoint bound_recorded (log : list BoundOutput) : list WarningType :=
  match log with
  | [] => []
  | BWcout _ :: rest => bound_recorded rest
  | BWarning t :: rest => t :: bound_recorded rest
  end.

(** The module names written in a log of [DumpBoundImports], in order. *)
Fixpoint module_names (log : list BoundOutput) : list string :=
  match log with
  | [] => []
  | BWcout (BModuleName s) :: rest => s :: module_names rest
  | BWcout (BFwdModuleName s) :: rest => s :: module_names rest
  | _ :: rest => module_names rest
  end.

(** All reads that [DumpBoundImports] makes for [dir] succeed. *)
Definition readable (queries : BoundImportQueries) (dir : BoundImportDir)
  : Prop :=
  GetModuleName queries dir <> None /\
  exists forwarder_refs,
    GetModuleForwarderRefs queries dir = Some forwarder_refs /\
    Forall (fun forwarder =>
              GetNameForModuleForwarderRef queries dir forwarder <> None)
      forwarder_refs.

(** The names [DumpBoundImports] is to write for [dir]: its own, then those
    of its forwarder references (unreadable ones left out). *)
Definition names_of (queries : BoundImportQueries) (dir : BoundImportDir)
  : list string :=
  match GetModuleName queries dir with Some s => [s] | None => [] end ++
  match GetModuleForwarderRefs queries dir with
  | Some forwarder_refs =>
      flat_map (fun forwarder =>
                  match GetNameForModuleForwarderRef queries dir forwarder
                  with Some s => [s] | None => [] end) forwarder_refs
  | None => []
  end.

(** Sample data: headers that declare 16 directories with the bound import
    directory at RVA [0x240], a descriptor with one forwarder reference, and
    queries that can read every name but those at offset [0x99]. *)
Definition sample_headers (count address : DWORD) : NtHeaders :=
  {| GetNumberOfRvaAndSizes := count;
     GetDataDirectoryVirtualAddress :=
       fun index => if index =? 11 then address else 0 |}.

Definition sample_forwarder : Forwarder.IMAGE_BOUND_FORWARDER_REF :=
  {| Forwarder.TimeDateStamp := 0x4a5bc100;
     Forwarder.OffsetModuleName := 32;
     Forwarder.Reserved := 0 |}.

Definition sample_queries : BoundImportQueries :=
  {| GetModuleName := fun dir =>
       if OffsetModuleName dir =? 0x99 then None
       else Some "KERNEL32.dll"%string;
     GetModuleForwarderRefs := fun dir =>
       Some (repeat sample_forwarder
               (Z.to_nat (NumberOfModuleForwarderRefs dir)));
     GetNameForModuleForwarderRef := fun _ forwarder =>
       if Forwarder.OffsetModuleName forwarder =? 0x99 then None
       else Some "NTDLL.DLL"%string |}.

Definition forwarding_entry : BoundImportDir :=
  {| BoundTimeDateStamp := 0x4a5bc000;
     OffsetModuleName := 16;
     NumberOfModuleForwarderRefs := 1 |}.

Definition unreadable_entry : BoundImportDir :=
  {| BoundTimeDateStamp := 0x4a5bc000;
     OffsetModuleName := 0x99;
     NumberOfModuleForwarderRefs := 0 |}.

Definition bound_image (bound : list BoundImportDir) : PeFile :=
  sample_image [] [] [] bound.

(** ** [Module.hpp]: the module list iterator *)

Module HadesMemory.

(** [MemoryMgr], of which the iterator reads the process id. *)
Record MemoryMgr := { GetProcessID : DWORD }.

(** [MODULEENTRY32], the fields a module is made of. *)
Record MODULEENTRY32 := {
  hModule : Z;
  modBaseSize : DWORD;
  szModule : string;
  szExePath : string
}.

(** The private data of [class Module]. *)
Record HadesModule := {
  m_Base : Z;
  m_Size : DWORD;
  m_Name : string;
  m_Path : string
}.

(** [Module::Error] with the three attributes attached at the throw sites. *)
Record Error := {
  ErrorFunction : string;
  ErrorString : string;
  ErrorCode : Z
}.

(** The answer of one call of [Module32First] or [Module32Next]: [TRUE] and
    the entry filled in, or [FALSE] and the value of [GetLastError]. *)
Inductive Answer :=
| Found (entry : MODULEENTRY32)
| Failed (last_error : Z).

(** A Toolhelp snapshot handle: [Module32 k] is the answer to the call
    number [k] made on it ([Module32First] is call [0]). *)
Record Snapshot := { Module32 : nat -> Answer }.

(** [CreateToolhelp32Snapshot(TH32CS_SNAPMODULE, pid)]: a handle, or
    [INVALID_HANDLE_VALUE] and the value of [GetLastError]. *)
Definition Toolhelp := DWORD -> Snapshot + Z.

Definition ERROR_NO_MORE_FILES : Z := 18.

(** The iterator object: its three members and the number of calls made on
    the snapshot handle so far. *)
Record ModuleListIter := {
  m_Memory : MemoryMgr;
  m_Snap : Snapshot;
  calls : nat;
  m_Current : option HadesModule
}.

Section Iterator.

(** The constructor [Module(MemoryMgr const&, MODULEENTRY32 const&)], which
    is declared in the header and defined elsewhere. *)
Variable MakeModule : MemoryMgr -> MODULEENTRY32 -> HadesModule.

Variable CreateToolhelp32Snapshot : Toolhelp.

(** [ModuleListIter::ModuleListIter(MemoryMgr const&)]: the object
    constructed, or the exception thrown. *)
Definition construct (MyMemory : MemoryMgr) : ModuleListIter + Error :=
  match CreateToolhelp32Snapshot (GetProcessID MyMemory) with
  | inr LastError =>
      inr {| ErrorFunction := "ModuleEnum::First";
             ErrorString := "Could not get module snapshot.";
             ErrorCode := LastError |}
  | inl snap =>
      match Module32 snap 0 with
      | Failed LastError =>
          inr {| ErrorFunction := "ModuleEnum::First";
                 ErrorString := "Could not get module info.";
                 ErrorCode := LastError |}
      | Found MyModuleEntry =>
          inl {| m_Memory := MyMemory;
                 m_Snap := snap;
                 calls := 1;
                 m_Current := Some (MakeModule MyMemory MyModuleEntry) |}
      end
  end.

(** [ModuleListIter::increment]: the object after the call, and the
    exception if one was thrown (the object then keeps its current
    module). *)
Definition increment (it : ModuleListIter) : ModuleListIter * option Error :=
  match Module32 (m_Snap it) (calls it) with
  | Failed LastError =>
      if negb (LastError =? ERROR_NO_MORE_FILES) then
        ({| m_Memory := m_Memory it;
            m_Snap := m_Snap it;
            calls := S (calls it);
            m_Current := m_Current it |},
         Some {| ErrorFunction := "ModuleEnum::Next";
                 ErrorString := "Error enumerating module list.";
                 ErrorCode := LastError |})
      else
        ({| m_Memory := m_Memory it;
            m_Snap := m_Snap it;
            calls := S (calls it);
            m_Current := None |},
         None)
  | Found MyModuleEntry =>
      ({| m_Memory := m_Memory it;
          m_Snap := m_Snap it;
          calls := S (calls it);
          m_Current := Some (MakeModule (m_Memory it) MyModuleEntry) |},
       None)
  end.

(** [ModuleListIter::dereference]. *)
Definition dereference (it : ModuleListIter) : option HadesModule :=
  m_Current it.

(** [++it] repeated [n] times, stopping at the first exception. *)
Fixpoint increments (n : nat) (it : ModuleListIter)
  : ModuleListIter * option Error :=
  match n with
  | O => (it, None)
  | S n' =>
      match increment it with
      | (it', None) => increments n' it'
      | (it', Some e) => (it', Some e)
      end
  end.

End Iterator.

(** Sample data: a module made of the entry's fields, and a snapshot that
    answers with the entries of a list and then [ERROR_NO_MORE_FILES]. *)
Definition module_of_entry (MyMemory : MemoryMgr) (entry : MODULEENTRY32)
  : HadesModule :=
  {| m_Base := hModule entry;
     m_Size := modBaseSize entry;
     m_Name := szModule entry;
     m_Path := szExePath entry |}.

Definition snapshot_of (entries : list MODULEENTRY32) : Snapshot :=
  {| Module32 := fun k =>
       match nth_error entries k with
       | Some entry => Found entry
       | None => Failed ERROR_NO_MORE_FILES
       end |}.

Definition sample_entry (base : Z) (name : string) : MODULEENTRY32 :=
  {| hModule := base; modBaseSize := 0x1000;
     szModule := name; szExePath := name |}.

Definition sample_entries : list MODULEENTRY32 :=
  [sample_entry 0x400000 "dump.exe"; sample_entry 0x77000000 "ntdll.dll";
   sample_entry 0x76000000 "kernel32.dll"].

Definition sample_memory : MemoryMgr := {| GetProcessID := 4242 |}.

End HadesMemory.

(** ** Logs and counting *)

Lemma count_warning_app m t (a b : list Output) :
  count_warning m t (a ++ b) = (count_warning m t a + count_warning m t b)%nat.
Proof. unfold count_warning. apply count_occ_app. Qed.

Lemma count_warning_cons_Wcout m t l (log : list Output) :
  count_warning m t (Wcout l :: log) = count_warning m t log.
Proof.
  unfold count_warning. simpl.
  destruct (Output_eq_dec (Wcout l) (Warning m t)); [discriminate | reflexivity].
Qed.

Lemma warns_only_app allowed (a b : list Output) :
  warns_only allowed a -> warns_only allowed b -> warns_only allowed (a ++ b).
Proof. unfold warns_only. intros Ha Hb. apply Forall_app. split; assumption. Qed.

Lemma warns_only_incl allowed allowed' (log : list Output) :
  incl allowed allowed' -> warns_only allowed log -> warns_only allowed' log.
Proof.
  unfold warns_only. intros Hincl Hlog.
  eapply Forall_impl; [ | exact Hlog ].
  intros [l | m t]; [ trivial | apply Hincl ].
Qed.

Lemma warns_only_not_In allowed m t (log : list Output) :
  warns_only allowed log -> ~ In m allowed -> ~ In (Warning m t) log.
Proof.
  unfold warns_only. intros Hlog Hm Hin.
  rewrite Forall_forall in Hlog. apply Hlog in Hin. contradiction.
Qed.

Lemma warns_only_count allowed m t (log : list Output) :
  warns_only allowed log -> ~ In m allowed -> count_warning m t log = 0%nat.
Proof.
  intros Hlog Hm. unfold count_warning.
  apply count_occ_not_In. eapply warns_only_not_In; eassumption.
Qed.

Lemma recorded_app (a b : list Output) :
  recorded (a ++ b) = recorded a ++ recorded b.
Proof.
  induction a as [ | [l | m t] a IH ]; simpl; [ reflexivity | exact IH | ].
  now rewrite IH.
Qed.

(** ** The thunk reader *)

Lemma read_thunks_app (entries rest : list DWORD) :
  Forall (fun v => v <> 0) entries ->
  read_thunks (entries ++ rest) = thunks_of entries ++ read_thunks rest.
Proof.
  induction 1 as [ | v entries Hv _ IH ]; simpl; [ reflexivity | ].
  apply Z.eqb_neq in Hv. rewrite Hv, IH. reflexivity.
Qed.

Lemma read_thunks_sentinel (entries rest : list DWORD) :
  Forall (fun v => v <> 0) entries ->
  read_thunks (entries ++ 0 :: rest) = thunks_of entries.
Proof.
  intros H. rewrite read_thunks_app by assumption.
  simpl. apply app_nil_r.
Qed.

Lemma thunks_of_length raw : length (thunks_of raw) = length raw.
Proof. apply length_map. Qed.

(** ** Dumping thunks *)

Section ThunkWalks.

Variable pe_file : PeFile.

Lemma DumpImportThunk_warns thunk b :
  warns_only [WInvalidThunkName] (DumpImportThunk pe_file thunk b).
Proof.
  unfold warns_only, DumpImportThunk.
  destruct b; [ | destruct (ByOrdinal thunk) ];
    [ | | destruct (GetHint pe_file (GetAddressOfData thunk));
          [ destruct (GetThunkName pe_file (GetAddressOfData thunk)) | ] ];
    repeat constructor.
Qed.

Lemma dumped_cons b thunk thunks :
  dumped pe_file b (thunk :: thunks) =
  DumpImportThunk pe_file thunk b ++ dumped pe_file b thunks.
Proof. reflexivity. Qed.

Lemma dumped_warns b thunks :
  warns_only [WInvalidThunkName] (dumped pe_file b thunks).
Proof.
  induction thunks as [ | thunk thunks IH ].
  - constructor.
  - rewrite dumped_cons.
    apply warns_only_app; [ apply DumpImportThunk_warns | exact IH ].
Qed.

Lemma dumped_app b (xs ys : list ImportThunk) :
  dumped pe_file b (xs ++ ys) = dumped pe_file b xs ++ dumped pe_file b ys.
Proof. unfold dumped. apply flat_map_app. Qed.

(** The structural walk over at most [1000 - count] thunks dumps them all. *)
Lemma DumpIltThunks_short thunks : forall count,
  Z.of_nat (length thunks) <= 1000 - count ->
  DumpIltThunks pe_file count thunks =
  (dumped pe_file false thunks, count + Z.of_nat (length thunks)).
Proof.
  induction thunks as [ | thunk thunks IH ]; intros count Hlen.
  - simpl. f_equal. lia.
  - cbn [DumpIltThunks]. cbn [length] in Hlen.
    destruct (Z.eqb_spec count 1000) as [-> | _]; [ lia | ].
    rewrite IH by lia. rewrite dumped_cons. f_equal. cbn [length]. lia.
Qed.

(** Over more thunks it dumps the first [1000 - count] and stops with the
    warning, the counter having been incremented once more. *)
Lemma DumpIltThunks_long thunks : forall count,
  0 <= count <= 1000 ->
  Z.of_nat (length thunks) > 1000 - count ->
  DumpIltThunks pe_file count thunks =
  (dumped pe_file false (firstn (Z.to_nat (1000 - count)) thunks) ++
     [Warning WImportThunkCeiling kUnsupported], 1001).
Proof.
  induction thunks as [ | thunk thunks IH ]; intros count Hc Hlen.
  - cbn [length] in Hlen. lia.
  - cbn [DumpIltThunks]. cbn [length] in Hlen.
    destruct (Z.eqb_spec count 1000) as [-> | Hne].
    + reflexivity.
    + rewrite IH by lia.
      replace (Z.to_nat (1000 - count))
        with (S (Z.to_nat (1000 - (count + 1)))) by lia.
      cbn [firstn]. rewrite dumped_cons, app_assoc. reflexivity.
Qed.

Lemma DumpIltThunks_warns thunks : forall count,
  warns_only [WInvalidThunkName; WImportThunkCeiling]
    (fst (DumpIltThunks pe_file count thunks)).
Proof.
  induction thunks as [ | thunk thunks IH ]; intros count.
  - constructor.
  - cbn [DumpIltThunks].
    destruct (count =? 1000).
    + constructor; [ simpl; auto | constructor ].
    + specialize (IH (count + 1)).
      destruct (DumpIltThunks pe_file (count + 1) thunks) as [log count'].
      cbn [fst] in *. apply warns_only_app; [ | exact IH ].
      eapply warns_only_incl; [ | apply DumpImportThunk_warns ].
      intros m [<- | []]. simpl. auto.
Qed.

End ThunkWalks.

(** ** The IAT pass *)

Section IatPass.

Variable pe_file : PeFile.
Variable dir : ImportDir.

(** With an unmappable ILT RVA the guard of the loop is off: every IAT thunk
    is dumped, whatever the counter. *)
Lemma DumpIatThunks_invalid_ilt :
  ilt_valid pe_file dir = false ->
  forall thunks count,
    DumpIatThunks pe_file dir count thunks =
    dumped pe_file (negb (ilt_empty pe_file dir)) thunks.
Proof.
  intros Hinvalid. induction thunks as [ | thunk thunks IH ]; intros count.
  - reflexivity.
  - cbn [DumpIatThunks]. rewrite Hinvalid. cbn [andb].
    rewrite IH, dumped_cons, andb_false_r. reflexivity.
Qed.

(** With a mappable ILT RVA the loop dumps as many IAT thunks as the counter
    says and reports the first one beyond. *)
Lemma DumpIatThunks_valid_ilt_short :
  ilt_valid pe_file dir = true ->
  forall thunks n,
    (length thunks <= n)%nat ->
    DumpIatThunks pe_file dir (Z.of_nat n) thunks =
    dumped pe_file (is_iat_bound pe_file dir || negb (ilt_empty pe_file dir))
      thunks.
Proof.
  intros Hvalid. induction thunks as [ | thunk thunks IH ]; intros n Hlen.
  - reflexivity.
  - cbn [DumpIatThunks]. rewrite Hvalid. cbn [andb length] in *.
    destruct n as [ | n ]; [ lia | ].
    destruct (Z.eqb_spec (Z.of_nat (S n)) 0) as [ H0 | _ ]; [ lia | ].
    replace (Z.of_nat (S n) - 1) with (Z.of_nat n) by lia.
    rewrite IH by lia. rewrite dumped_cons, andb_true_r. reflexivity.
Qed.

Lemma DumpIatThunks_valid_ilt_long :
  ilt_valid pe_file dir = true ->
  forall thunks n,
    (length thunks > n)%nat ->
    DumpIatThunks pe_file dir (Z.of_nat n) thunks =
    dumped pe_file (is_iat_bound pe_file dir || negb (ilt_empty pe_file dir))
      (firstn n thunks) ++ [Warning WIatSizeMismatch kSuspicious].
Proof.
  intros Hvalid. induction thunks as [ | thunk thunks IH ]; intros n Hlen.
  - cbn [length] in Hlen. lia.
  - cbn [DumpIatThunks]. rewrite Hvalid. cbn [andb length] in *.
    destruct n as [ | n ]; [ reflexivity | ].
    destruct (Z.eqb_spec (Z.of_nat (S n)) 0) as [ H0 | _ ]; [ lia | ].
    replace (Z.of_nat (S n) - 1) with (Z.of_nat n) by lia.
    rewrite IH by lia. cbn [firstn].
    rewrite dumped_cons, andb_true_r, app_assoc. reflexivity.
Qed.

Lemma DumpIatThunks_warns thunks : forall count,
  warns_only [WInvalidThunkName; WIatSizeMismatch]
    (DumpIatThunks pe_file dir count thunks).
Proof.
  induction thunks as [ | thunk thunks IH ]; intros count.
  - constructor.
  - cbn [DumpIatThunks].
    destruct (ilt_valid pe_file dir && (count =? 0)).
    + constructor; [ simpl; auto | constructor ].
    + apply warns_only_app; [ | apply IH ].
      eapply warns_only_incl; [ | apply DumpImportThunk_warns ].
      intros m [<- | []]. simpl. auto.
Qed.

Lemma DumpIatPass_warns count :
  warns_only [WInvalidThunkName; WIatSizeMismatch]
    (DumpIatPass pe_file dir count).
Proof.
  unfold DumpIatPass.
  destruct (use_ilt dir && negb (iat dir =? 0)); [ | constructor ].
  apply warns_only_app; [ | apply DumpIatThunks_warns ].
  destruct (negb (is_empty (iat_thunks pe_file dir))); repeat constructor.
Qed.

(** An unmappable ILT RVA that is used leaves the structural walk empty. *)
Lemma ilt_thunks_invalid_ilt :
  use_ilt dir = true -> ilt_valid pe_file dir = false ->
  ilt_thunks pe_file dir = [].
Proof.
  unfold ilt_thunks, ilt_valid, ImportThunkList. intros -> Hinvalid.
  destruct (RvaToVa pe_file (ilt dir)); [ discriminate | reflexivity ].
Qed.

(** Without a used ILT the structural walk is over the IAT. *)
Lemma ilt_thunks_no_ilt :
  use_ilt dir = false ->
  ilt_thunks pe_file dir = iat_thunks pe_file dir.
Proof. unfold ilt_thunks, iat_thunks. intros ->. reflexivity. Qed.

Lemma use_ilt_spec :
  use_ilt dir = true <->
  GetOriginalFirstThunk dir <> 0 /\
  GetOriginalFirstThunk dir <> GetFirstThunk dir.
Proof.
  unfold use_ilt, ilt, iat.
  rewrite andb_true_iff, !negb_true_iff, !Z.eqb_neq. reflexivity.
Qed.

(** *** The parts of the loop body and the warnings they can record *)

Lemma DumpDirStamps_warns :
  warns_only stamp_warnings (DumpDirStamps pe_file dir).
Proof.
  unfold DumpDirStamps, stamp_warnings, warns_only.
  destruct (GetTimeDateStamp dir =? static_cast_DWORD (-1));
    [ destruct (negb (ilt_valid pe_file dir)
                && HasValidNonEmptyBoundImportDescList pe_file) | ];
    destruct (negb (GetForwarderChain dir =? 0)
              && negb (GetForwarderChain dir =? static_cast_DWORD (-1)));
    cbn [app];
    repeat (apply Forall_cons; [ simpl; auto | ]); apply Forall_nil.
Qed.

Lemma DumpDirName_warns :
  warns_only [WFailedToReadName] (DumpDirName dir).
Proof.
  unfold DumpDirName. destruct (GetName dir); repeat constructor.
Qed.

Lemma DumpThunksHeading_warns :
  warns_only thunk_warnings (DumpThunksHeading pe_file dir).
Proof.
  unfold DumpThunksHeading, thunk_warnings.
  destruct (ilt_empty pe_file dir); [ | repeat constructor ].
  constructor; [ | constructor ].
  destruct (ilt_valid pe_file dir); simpl; auto.
Qed.

Lemma DumpDirThunks_warns :
  warns_only thunk_warnings (DumpDirThunks pe_file dir).
Proof.
  unfold DumpDirThunks, thunk_warnings.
  pose proof (DumpIltThunks_warns pe_file (ilt_thunks pe_file dir) 0) as Hilt.
  destruct (DumpIltThunks pe_file 0 (ilt_thunks pe_file dir)) as [log count].
  cbn [fst] in Hilt.
  apply warns_only_app.
  - eapply warns_only_incl; [ | exact Hilt ].
    intros m Hm; simpl in Hm |- *; intuition auto.
  - eapply warns_only_incl; [ | apply DumpIatPass_warns ].
    intros m Hm; simpl in Hm |- *; intuition auto.
Qed.

Lemma DumpDirBody_warns :
  warns_only body_warnings (DumpDirBody pe_file dir).
Proof.
  unfold DumpDirBody, body_warnings.
  repeat apply warns_only_app.
  - eapply warns_only_incl; [ | apply DumpDirStamps_warns ].
    intros m Hm. apply in_or_app. left. exact Hm.
  - eapply warns_only_incl; [ | apply DumpDirName_warns ].
    intros m [<- | []]. apply in_or_app. right. left. reflexivity.
  - eapply warns_only_incl; [ | apply DumpThunksHeading_warns ].
    intros m Hm. apply in_or_app. right. right. exact Hm.
  - eapply warns_only_incl; [ | apply DumpDirThunks_warns ].
    intros m Hm. apply in_or_app. right. right. exact Hm.
Qed.

End IatPass.

(** ** One iteration of the descriptor loop *)

Section Iteration.

Variable pe_file : PeFile.
Variable dir : ImportDir.

Lemma is_empty_nil {A} (l : list A) : is_empty l = true <-> l = [].
Proof. destruct l; simpl; split; congruence. Qed.

Lemma is_empty_not_nil {A} (l : list A) : is_empty l = false <-> l <> [].
Proof. destruct l; simpl; split; congruence. Qed.

Lemma DumpImportDir_terminated num :
  IsTlsAoiTerminated dir = true ->
  DumpImportDir pe_file num dir =
  ([Wcout LNewline; Warning WTlsAoiTrick kSuspicious], Break, num).
Proof. unfold DumpImportDir. intros ->. reflexivity. Qed.

Lemma DumpImportDir_skipped num :
  IsTlsAoiTerminated dir = false ->
  iat_thunks pe_file dir = [] ->
  DumpImportDir pe_file num dir =
  ([Wcout LNewline; Warning (WIat (iat_valid pe_file dir)) kSuspicious],
   Continue, num).
Proof. unfold DumpImportDir. intros -> ->. reflexivity. Qed.

Lemma DumpImportDir_ceiling :
  IsTlsAoiTerminated dir = false ->
  iat_thunks pe_file dir <> [] ->
  DumpImportDir pe_file 1000 dir =
  ([Wcout LNewline; Warning WImportDirCeiling kUnsupported], Break, 1001).
Proof.
  unfold DumpImportDir. intros -> Hiat.
  apply is_empty_not_nil in Hiat. rewrite Hiat. reflexivity.
Qed.

Lemma DumpImportDir_processed num :
  processed pe_file num dir ->
  DumpImportDir pe_file num dir =
  (Wcout LNewline :: DumpDirBody pe_file dir,
   Continue, static_cast_DWORD (num + 1)).
Proof.
  unfold DumpImportDir. intros (-> & Hiat & Hnum).
  apply is_empty_not_nil in Hiat. rewrite Hiat.
  apply Z.eqb_neq in Hnum. rewrite Hnum. reflexivity.
Qed.

(** Without a used ILT the IAT is the structural source and there is no
    second pass. *)
Lemma DumpDirThunks_no_ilt :
  use_ilt dir = false ->
  DumpDirThunks pe_file dir =
  fst (DumpIltThunks pe_file 0 (iat_thunks pe_file dir)).
Proof.
  intros Huse. unfold DumpDirThunks, DumpIatPass.
  rewrite ilt_thunks_no_ilt by assumption. rewrite Huse. cbn [andb].
  destruct (DumpIltThunks pe_file 0 (iat_thunks pe_file dir)).
  apply app_nil_r.
Qed.

(** With a used ILT whose RVA is unmappable nothing is walked structurally
    and the second pass dumps the whole IAT, unbound. *)
Lemma DumpDirThunks_invalid_ilt :
  use_ilt dir = true ->
  ilt_valid pe_file dir = false ->
  iat dir <> 0 ->
  iat_thunks pe_file dir <> [] ->
  DumpThunksHeading pe_file dir = [Warning (WIlt false) kSuspicious] /\
  DumpDirThunks pe_file dir =
    Wcout LImportThunksIAT :: dumped pe_file false (iat_thunks pe_file dir).
Proof.
  intros Huse Hinvalid Hiat Hthunks.
  pose proof (ilt_thunks_invalid_ilt pe_file dir Huse Hinvalid) as Hilt.
  assert (Hempty : ilt_empty pe_file dir = true)
    by (unfold ilt_empty; rewrite Hilt; reflexivity).
  unfold DumpThunksHeading, DumpDirThunks, DumpIatPass.
  rewrite Hempty, Hinvalid, Hilt, Huse.
  apply Z.eqb_neq in Hiat. rewrite Hiat.
  apply is_empty_not_nil in Hthunks. rewrite Hthunks.
  cbn [DumpIltThunks andb negb app]. split; [ reflexivity | ].
  rewrite DumpIatThunks_invalid_ilt by assumption.
  rewrite Hempty. reflexivity.
Qed.

End Iteration.

(** ** The structural thunk walk *)

Lemma DumpImportThunk_unbound_no_Function pe_file thunk v :
  ~ In (Wcout (LFunction v)) (DumpImportThunk pe_file thunk false).
Proof.
  unfold DumpImportThunk. cbv zeta.
  destruct (ByOrdinal thunk);
    [ | destruct (GetHint pe_file (GetAddressOfData thunk));
        [ destruct (GetThunkName pe_file (GetAddressOfData thunk)) | ] ];
    simpl; intuition discriminate.
Qed.

Lemma dumped_unbound_no_Function pe_file thunks v :
  ~ In (Wcout (LFunction v)) (dumped pe_file false thunks).
Proof.
  induction thunks as [ | thunk thunks IH ]; [ intros [] | ].
  rewrite dumped_cons. intros Hin. apply in_app_or in Hin.
  destruct Hin as [Hin | Hin]; [ | exact (IH Hin) ].
  exact (DumpImportThunk_unbound_no_Function _ _ _ Hin).
Qed.

(** The walk over any thunk sequence: all of it, or its first 1000 thunks and
    the warning. *)
Lemma DumpIltThunks_cases pe_file thunks :
  DumpIltThunks pe_file 0 thunks =
    (dumped pe_file false thunks, Z.of_nat (length thunks)) \/
  DumpIltThunks pe_file 0 thunks =
    (dumped pe_file false (firstn 1000 thunks) ++
       [Warning WImportThunkCeiling kUnsupported], 1001).
Proof.
  destruct (Z_le_gt_dec (Z.of_nat (length thunks)) 1000) as [Hle | Hgt].
  - left. now rewrite DumpIltThunks_short by lia.
  - right. rewrite DumpIltThunks_long by lia.
    change (Z.to_nat (1000 - 0)) with 1000%nat. reflexivity.
Qed.

(** C4.  A thunk table ended by a zero sentinel after N <= 1000 entries is
    walked entry by entry, all N of them, and no resource-guard warning is
    recorded.  A thunk table that goes on beyond 1000 entries without a
    sentinel has exactly its first 1000 entries walked, and exactly one
    Unsupported resource-guard warning is recorded. *)
Theorem thunk_walk_ceiling :
  forall pe_file (entries rest : list DWORD),
    Forall (fun v => v <> 0) entries ->
    ((length entries <= 1000)%nat ->
     let walk :=
       DumpIltThunks pe_file 0 (read_thunks (entries ++ 0 :: rest)) in
     walk = (dumped pe_file false (thunks_of entries),
             Z.of_nat (length entries)) /\
     length (thunks_of entries) = length entries /\
     forall t, count_warning WImportThunkCeiling t (fst walk) = 0%nat) /\
    ((length entries > 1000)%nat ->
     let walk := DumpIltThunks pe_file 0 (read_thunks (entries ++ rest)) in
     fst walk = dumped pe_file false (firstn 1000 (thunks_of entries)) ++
                [Warning WImportThunkCeiling kUnsupported] /\
     length (firstn 1000 (thunks_of entries)) = 1000%nat /\
     count_warning WImportThunkCeiling kUnsupported (fst walk) = 1%nat).
Proof.
  intros pe_file entries rest Hnonzero. split; intros Hlen; cbv zeta.
  - rewrite read_thunks_sentinel by assumption.
    rewrite DumpIltThunks_short by (rewrite thunks_of_length; lia).
    rewrite thunks_of_length. cbn [fst]. repeat split.
    intros t. eapply warns_only_count; [ apply dumped_warns | ].
    simpl. intuition discriminate.
  - rewrite read_thunks_app by assumption.
    rewrite DumpIltThunks_long
      by (rewrite ?length_app, ?thunks_of_length; lia).
    change (Z.to_nat (1000 - 0)) with 1000%nat. cbn [fst].
    rewrite firstn_app, thunks_of_length.
    replace (1000 - length entries)%nat with 0%nat by lia.
    rewrite firstn_O, app_nil_r.
    repeat split.
    + rewrite length_firstn, thunks_of_length. lia.
    + rewrite count_warning_app.
      rewrite (warns_only_count [WInvalidThunkName])
        by (try apply dumped_warns; simpl; intuition discriminate).
      reflexivity.
Qed.

(** C4 on two tables: two thunks before the sentinel, and 1001 thunks. *)
Lemma thunk_walk_ceiling_witness :
  (let walk :=
     DumpIltThunks (sample_image [] [] [] []) 0
       (read_thunks ([0x3000; 0x80000005] ++ 0 :: [7])) in
   walk = (dumped (sample_image [] [] [] []) false
             (thunks_of [0x3000; 0x80000005]), 2) /\
   length (thunks_of [0x3000; 0x80000005]) = 2%nat /\
   forall t, count_warning WImportThunkCeiling t (fst walk) = 0%nat) /\
  (let walk :=
     DumpIltThunks (sample_image [] [] [] []) 0
       (read_thunks (repeat 0x3000 1001 ++ [])) in
   fst walk = dumped (sample_image [] [] [] []) false
                (firstn 1000 (thunks_of (repeat 0x3000 1001))) ++
              [Warning WImportThunkCeiling kUnsupported] /\
   length (firstn 1000 (thunks_of (repeat 0x3000 1001))) = 1000%nat /\
   count_warning WImportThunkCeiling kUnsupported (fst walk) = 1%nat).
Proof.
  split.
  - apply (proj1 (thunk_walk_ceiling (sample_image [] [] [] [])
                    [0x3000; 0x80000005] [7]
                    ltac:(repeat constructor; discriminate))).
    simpl. lia.
  - apply (proj2 (thunk_walk_ceiling (sample_image [] [] [] [])
                    (repeat 0x3000 1001) []
                    ltac:(apply Forall_forall; intros v Hv;
                          apply repeat_spec in Hv; subst v; discriminate))).
    rewrite repeat_length. lia.
Defined.

(** C2, counterexample.  An old-style bound descriptor without ILT
    ([is_ilt_bound] holds) whose IAT holds an ordinal thunk: the walk renders
    the thunk as an ordinal, not as the bound function address that
    [is_ilt_bound] asks for. *)
Lemma structural_walk_binding_counterexample :
  is_bound old_bound_dir = true /\
  use_ilt old_bound_dir = false /\
  is_ilt_bound old_bound_image old_bound_dir = true /\
  ilt_thunks old_bound_image old_bound_dir = [{| u1 := 0x80000005 |}] /\
  fst (DumpIltThunks old_bound_image 0
         (ilt_thunks old_bound_image old_bound_dir)) =
    [Wcout LNewline; Wcout (LOrdinalRaw 0x80000005); Wcout (LOrdinal 5)] /\
  dumped old_bound_image (is_ilt_bound old_bound_image old_bound_dir)
    (ilt_thunks old_bound_image old_bound_dir) =
    [Wcout LNewline; Wcout (LFunction 0x80000005)] /\
  fst (DumpIltThunks old_bound_image 0
         (ilt_thunks old_bound_image old_bound_dir)) <>
  dumped old_bound_image (is_ilt_bound old_bound_image old_bound_dir)
    (ilt_thunks old_bound_image old_bound_dir).
Proof.
  repeat split; try reflexivity.
  vm_compute. discriminate.
Qed.

(** C2, amended.  Every thunk of the structural walk (ILT, or IAT when no
    ILT is used) is dumped with the bound flag off, whatever [is_ilt_bound]
    says: a thunk whose ordinal bit is set is written as its raw ordinal and
    its ordinal, any other thunk by name (address of data, then hint and
    name, or the warning where they cannot be read), and none as a bound
    function address.  The walk covers the whole sequence, or its first 1000
    thunks followed by the warning. *)
Theorem structural_walk_dumps_unbound :
  forall pe_file dir,
    let thunks := ilt_thunks pe_file dir in
    let log := fst (DumpIltThunks pe_file 0 thunks) in
    let rendered :=
      flat_map
        (fun thunk =>
           if ByOrdinal thunk then
             [Wcout LNewline;
              Wcout (LOrdinalRaw (u1 thunk));
              Wcout (LOrdinal (Z.land (u1 thunk) 65535))]
           else
             Wcout LNewline ::
             Wcout (LAddressOfData (u1 thunk)) ::
             match GetHint pe_file (u1 thunk) with
             | None => [Warning WInvalidThunkName kUnsupported]
             | Some hint =>
                 Wcout (LHint hint) ::
                 match GetThunkName pe_file (u1 thunk) with
                 | None => [Warning WInvalidThunkName kUnsupported]
                 | Some name => [Wcout (LThunkName name)]
                 end
             end) in
    (log = dumped pe_file false thunks \/
     log = dumped pe_file false (firstn 1000 thunks) ++
           [Warning WImportThunkCeiling kUnsupported]) /\
    (log = rendered thunks \/
     log = rendered (firstn 1000 thunks) ++
           [Warning WImportThunkCeiling kUnsupported]) /\
    (forall v, ~ In (Wcout (LFunction v)) log).
Proof.
  intros pe_file dir thunks log rendered.
  assert (Hrendered : forall l, dumped pe_file false l = rendered l).
  { induction l as [ | thunk l IH ]; [ reflexivity | ].
    rewrite dumped_cons, IH. subst rendered. cbn [flat_map]. f_equal.
    unfold DumpImportThunk, GetOrdinalRaw, GetOrdinal, GetAddressOfData.
    cbv zeta. destruct (ByOrdinal thunk); reflexivity. }
  subst log.
  destruct (DumpIltThunks_cases pe_file thunks) as [-> | ->]; cbn [fst].
  - split; [ left; reflexivity | ].
    split; [ left; apply Hrendered | ].
    intros v. apply dumped_unbound_no_Function.
  - split; [ right; reflexivity | ].
    split; [ right; rewrite Hrendered; reflexivity | ].
    intros v Hin. apply in_app_or in Hin. destruct Hin as [Hin | Hin].
    + exact (dumped_unbound_no_Function _ _ _ Hin).
    + simpl in Hin. intuition discriminate.
Qed.

(** ** The separate IAT pass *)

(** C3, counterexample.  A descriptor that uses an ILT whose RVA is
    unmappable: the ILT walk produces nothing, the IAT holds two thunks, and
    the IAT pass dumps both without a size-mismatch warning. *)
Lemma iat_walk_invalid_ilt_counterexample :
  use_ilt invalid_ilt_dir = true /\
  iat invalid_ilt_dir <> 0 /\
  ilt_valid (invalid_ilt_image 2) invalid_ilt_dir = false /\
  DumpIltThunks (invalid_ilt_image 2) 0
    (ilt_thunks (invalid_ilt_image 2) invalid_ilt_dir) = ([], 0) /\
  length (iat_thunks (invalid_ilt_image 2) invalid_ilt_dir) = 2%nat /\
  DumpIatPass (invalid_ilt_image 2) invalid_ilt_dir 0 =
    Wcout LImportThunksIAT ::
    dumped (invalid_ilt_image 2) false
      (iat_thunks (invalid_ilt_image 2) invalid_ilt_dir) /\
  count_warning WIatSizeMismatch kSuspicious
    (DumpIatPass (invalid_ilt_image 2) invalid_ilt_dir 0) = 0%nat.
Proof.
  repeat split; try reflexivity.
  vm_compute. discriminate.
Qed.

(** C3, amended.  For a descriptor that uses the ILT, has a non-zero IAT RVA
    and an IAT sequence strictly longer than the ILT sequence:
    - when the ILT RVA is mappable and the ILT holds at most 1000 thunks, the
      IAT pass dumps exactly as many IAT thunks as the ILT walk dumped and
      then records exactly one Suspicious size-mismatch warning;
    - when the ILT RVA is unmappable, the IAT pass dumps every IAT thunk,
      unbound, and records no size-mismatch warning. *)
Theorem iat_walk_stops_at_ilt_length :
  forall pe_file dir,
    use_ilt dir = true ->
    iat dir <> 0 ->
    (length (iat_thunks pe_file dir) > length (ilt_thunks pe_file dir))%nat ->
    let walk := DumpIltThunks pe_file 0 (ilt_thunks pe_file dir) in
    let pass := DumpIatPass pe_file dir (snd walk) in
    (ilt_valid pe_file dir = true ->
     (length (ilt_thunks pe_file dir) <= 1000)%nat ->
     fst walk = dumped pe_file false (ilt_thunks pe_file dir) /\
     pass =
       Wcout LImportThunksIAT ::
       dumped pe_file
         (is_iat_bound pe_file dir || negb (ilt_empty pe_file dir))
         (firstn (length (ilt_thunks pe_file dir)) (iat_thunks pe_file dir))
       ++ [Warning WIatSizeMismatch kSuspicious] /\
     length (firstn (length (ilt_thunks pe_file dir))
               (iat_thunks pe_file dir)) =
       length (ilt_thunks pe_file dir) /\
     count_warning WIatSizeMismatch kSuspicious pass = 1%nat) /\
    (ilt_valid pe_file dir = false ->
     fst walk = [] /\
     pass = Wcout LImportThunksIAT ::
            dumped pe_file false (iat_thunks pe_file dir) /\
     forall t, count_warning WIatSizeMismatch t pass = 0%nat).
Proof.
  intros pe_file dir Huse Hiat Hlonger walk pass. subst walk pass.
  assert (Hpass : forall count,
             DumpIatPass pe_file dir count =
             Wcout LImportThunksIAT ::
             DumpIatThunks pe_file dir count (iat_thunks pe_file dir)).
  { intros count. unfold DumpIatPass. rewrite Huse.
    apply Z.eqb_neq in Hiat. rewrite Hiat.
    destruct (iat_thunks pe_file dir); [ cbn [length] in Hlonger; lia | ].
    reflexivity. }
  split.
  - intros Hvalid Hshort.
    rewrite DumpIltThunks_short by lia. cbn [fst snd].
    rewrite Hpass, Z.add_0_l.
    rewrite DumpIatThunks_valid_ilt_long by assumption.
    repeat split.
    + rewrite length_firstn. lia.
    + rewrite count_warning_cons_Wcout, count_warning_app.
      rewrite (warns_only_count [WInvalidThunkName])
        by (try apply dumped_warns; simpl; intuition discriminate).
      reflexivity.
  - intros Hinvalid.
    rewrite (ilt_thunks_invalid_ilt pe_file dir Huse Hinvalid).
    cbn [DumpIltThunks fst snd]. rewrite Hpass.
    rewrite DumpIatThunks_invalid_ilt by assumption.
    unfold ilt_empty.
    rewrite (ilt_thunks_invalid_ilt pe_file dir Huse Hinvalid).
    cbn [is_empty negb]. repeat split.
    intros t. rewrite count_warning_cons_Wcout.
    eapply warns_only_count; [ apply dumped_warns | ].
    simpl. intuition discriminate.
Qed.

(** C3 (amended) on a descriptor with one ILT thunk and three IAT thunks,
    and on one with an unmappable ILT RVA. *)
Lemma iat_walk_stops_at_ilt_length_witness :
  (let walk :=
     DumpIltThunks mismatch_image 0 (ilt_thunks mismatch_image mismatch_dir) in
   let pass := DumpIatPass mismatch_image mismatch_dir (snd walk) in
   fst walk = dumped mismatch_image false
                (ilt_thunks mismatch_image mismatch_dir) /\
   pass =
     Wcout LImportThunksIAT ::
     dumped mismatch_image
       (is_iat_bound mismatch_image mismatch_dir
        || negb (ilt_empty mismatch_image mismatch_dir))
       (firstn (length (ilt_thunks mismatch_image mismatch_dir))
          (iat_thunks mismatch_image mismatch_dir))
     ++ [Warning WIatSizeMismatch kSuspicious] /\
   length (firstn (length (ilt_thunks mismatch_image mismatch_dir))
             (iat_thunks mismatch_image mismatch_dir)) =
     length (ilt_thunks mismatch_image mismatch_dir) /\
   count_warning WIatSizeMismatch kSuspicious pass = 1%nat) /\
  (let walk :=
     DumpIltThunks (invalid_ilt_image 2) 0
       (ilt_thunks (invalid_ilt_image 2) invalid_ilt_dir) in
   let pass := DumpIatPass (invalid_ilt_image 2) invalid_ilt_dir (snd walk) in
   fst walk = [] /\
   pass = Wcout LImportThunksIAT ::
          dumped (invalid_ilt_image 2) false
            (iat_thunks (invalid_ilt_image 2) invalid_ilt_dir) /\
   forall t, count_warning WIatSizeMismatch t pass = 0%nat).
Proof.
  split.
  - apply (proj1 (iat_walk_stops_at_ilt_length mismatch_image mismatch_dir
                    eq_refl ltac:(discriminate)
                    ltac:(vm_compute; lia))).
    + reflexivity.
    + vm_compute. lia.
  - apply (proj2 (iat_walk_stops_at_ilt_length (invalid_ilt_image 2)
                    invalid_ilt_dir eq_refl ltac:(discriminate)
                    ltac:(vm_compute; lia))).
    reflexivity.
Defined.


Lemma invalid_ilt_image_iat_thunks n :
  iat_thunks (invalid_ilt_image n) invalid_ilt_dir =
  thunks_of (repeat 0x3000 n).
Proof.
  unfold iat_thunks, ImportThunkList.
  change (RvaToVa (invalid_ilt_image n) (iat invalid_ilt_dir))
    with (Some 0x402000).
  change (ThunkData (invalid_ilt_image n) 0x402000)
    with (repeat 0x3000 n ++ [0]).
  apply read_thunks_sentinel.
  apply Forall_forall. intros v Hv. apply repeat_spec in Hv.
  subst v. discriminate.
Qed.

(** C7, the code at a failing input.  For every [n] there is an image with
    one descriptor, using an ILT whose RVA is unmappable, whose IAT pass
    dumps all [n + 1] thunks of the IAT: no ceiling bounds the loop, and no
    resource-guard warning is recorded for the image. *)
Theorem iat_pass_unbounded :
  forall n : nat,
    use_ilt invalid_ilt_dir = true /\
    ilt_valid (invalid_ilt_image (S n)) invalid_ilt_dir = false /\
    length (iat_thunks (invalid_ilt_image (S n)) invalid_ilt_dir) = S n /\
    DumpImports (invalid_ilt_image (S n)) =
      [Wcout LImportDirs; Wcout LNewline] ++
      DumpDirStamps (invalid_ilt_image (S n)) invalid_ilt_dir ++
      DumpDirName invalid_ilt_dir ++
      [Warning (WIlt false) kSuspicious; Wcout LImportThunksIAT] ++
      dumped (invalid_ilt_image (S n)) false
        (iat_thunks (invalid_ilt_image (S n)) invalid_ilt_dir) /\
    forall t,
      count_warning WImportThunkCeiling t
        (DumpImports (invalid_ilt_image (S n))) = 0%nat.
Proof.
  intros n.
  pose proof (invalid_ilt_image_iat_thunks (S n)) as Hthunks.
  assert (Hinvalid :
            ilt_valid (invalid_ilt_image (S n)) invalid_ilt_dir = false)
    by reflexivity.
  assert (Hnonempty :
            iat_thunks (invalid_ilt_image (S n)) invalid_ilt_dir <> [])
    by (rewrite Hthunks; discriminate).
  assert (Hlog :
            DumpImports (invalid_ilt_image (S n)) =
            [Wcout LImportDirs; Wcout LNewline] ++
            DumpDirStamps (invalid_ilt_image (S n)) invalid_ilt_dir ++
            DumpDirName invalid_ilt_dir ++
            [Warning (WIlt false) kSuspicious; Wcout LImportThunksIAT] ++
            dumped (invalid_ilt_image (S n)) false
              (iat_thunks (invalid_ilt_image (S n)) invalid_ilt_dir)).
  { unfold DumpImports.
    change (ImportDirList (invalid_ilt_image (S n))) with [invalid_ilt_dir].
    cbn [is_empty negb DumpImportDirs].
    rewrite DumpImportDir_processed
      by (repeat split; [ exact Hnonempty | discriminate ]).
    unfold DumpDirBody.
    destruct (DumpDirThunks_invalid_ilt (invalid_ilt_image (S n))
                invalid_ilt_dir eq_refl Hinvalid
                ltac:(discriminate) Hnonempty) as [-> ->].
    rewrite app_nil_r. reflexivity. }
  repeat split; try assumption.
  - rewrite Hthunks, thunks_of_length. apply repeat_length.
  - intros t. rewrite Hlog.
    eapply (warns_only_count
              (WIlt false :: WInvalidThunkName :: WFailedToReadName
                 :: stamp_warnings)).
    + apply warns_only_app; [ repeat constructor | ].
      apply warns_only_app.
      { eapply warns_only_incl; [ | apply DumpDirStamps_warns ].
        intros m Hm; simpl in Hm |- *; intuition auto. }
      apply warns_only_app.
      { eapply warns_only_incl; [ | apply DumpDirName_warns ].
        intros m Hm; simpl in Hm |- *; intuition auto. }
      apply warns_only_app.
      { constructor; [ simpl; auto | repeat constructor ]. }
      eapply warns_only_incl; [ | apply dumped_warns ].
      intros m Hm; simpl in Hm |- *; intuition auto.
    + simpl. intuition discriminate.
Qed.

(** ** Which table is walked *)

(** C8.  [use_ilt] holds exactly when the ILT RVA is non-zero and differs
    from the IAT RVA.  For a descriptor whose non-zero ILT RVA equals its IAT
    RVA, [use_ilt] is false, the structural walk is over the IAT, and the
    separate IAT pass writes nothing: the thunks dumped for the descriptor
    are those of the one walk over the IAT. *)
Theorem equal_thunk_rvas_use_iat :
  forall pe_file dir,
    (use_ilt dir = true <->
     GetOriginalFirstThunk dir <> 0 /\
     GetOriginalFirstThunk dir <> GetFirstThunk dir) /\
    (GetOriginalFirstThunk dir <> 0 ->
     GetOriginalFirstThunk dir = GetFirstThunk dir ->
     use_ilt dir = false /\
     ilt_thunks pe_file dir = ImportThunkList pe_file (GetFirstThunk dir) /\
     (forall count, DumpIatPass pe_file dir count = []) /\
     DumpDirThunks pe_file dir =
       fst (DumpIltThunks pe_file 0
              (ImportThunkList pe_file (GetFirstThunk dir)))).
Proof.
  intros pe_file dir. split; [ apply use_ilt_spec | ].
  intros Hnonzero Hsame.
  assert (Huse : use_ilt dir = false).
  { destruct (use_ilt dir) eqn:Huse; [ | reflexivity ].
    apply use_ilt_spec in Huse. tauto. }
  repeat split.
  - exact Huse.
  - apply ilt_thunks_no_ilt. exact Huse.
  - intros count. unfold DumpIatPass. rewrite Huse. reflexivity.
  - apply DumpDirThunks_no_ilt. exact Huse.
Qed.

(** C8 on a descriptor whose two thunk RVAs are both [0x2000]. *)
Lemma equal_thunk_rvas_use_iat_witness :
  use_ilt same_thunks_dir = false /\
  ilt_thunks same_thunks_image same_thunks_dir =
    ImportThunkList same_thunks_image (GetFirstThunk same_thunks_dir) /\
  (forall count, DumpIatPass same_thunks_image same_thunks_dir count = []) /\
  DumpDirThunks same_thunks_image same_thunks_dir =
    fst (DumpIltThunks same_thunks_image 0
           (ImportThunkList same_thunks_image
              (GetFirstThunk same_thunks_dir))).
Proof.
  apply (proj2 (equal_thunk_rvas_use_iat same_thunks_image same_thunks_dir)).
  - discriminate.
  - reflexivity.
Defined.

(** ** New-style bound imports *)

(** C1, counterexample.  A processed descriptor with time stamp [0xFFFFFFFF]
    and no ILT: in the image without bound import directory no warning about
    new-style bound imports is recorded (the claim says one), and in the
    image with such a directory one is recorded (the claim says none). *)
Lemma new_style_bound_counterexample :
  processed no_bound_dir_image 0 new_style_dir /\
  GetTimeDateStamp new_style_dir = 0xFFFFFFFF /\
  ilt_valid no_bound_dir_image new_style_dir = false /\
  HasValidNonEmptyBoundImportDescList no_bound_dir_image = false /\
  count_warning WNewStyleBoundInvalidIlt kUnsupported
    (DumpImports no_bound_dir_image) = 0%nat /\
  processed bound_dir_image 0 new_style_dir /\
  ilt_valid bound_dir_image new_style_dir = false /\
  HasValidNonEmptyBoundImportDescList bound_dir_image = true /\
  count_warning WNewStyleBoundInvalidIlt kUnsupported
    (DumpImports bound_dir_image) = 1%nat.
Proof.
  unfold processed.
  repeat split; try reflexivity; try discriminate.
Qed.

(** C1, amended.  For every processed descriptor whose time stamp is
    [0xFFFFFFFF] and whose ILT RVA is unmappable, exactly one Unsupported
    warning about new-style bound imports with an invalid ILT is recorded
    when a non-empty bound import directory is present, and none when it is
    absent.  The thunks are then taken from the IAT: as the structural source
    when no ILT is used, and otherwise, for a non-zero IAT RVA, by the
    separate IAT pass after the ILT was reported invalid. *)
Theorem new_style_bound_invalid_ilt :
  forall pe_file num dir,
    processed pe_file num dir ->
    GetTimeDateStamp dir = static_cast_DWORD (-1) ->
    ilt_valid pe_file dir = false ->
    let log := fst (fst (DumpImportDir pe_file num dir)) in
    log = Wcout LNewline ::
          DumpDirStamps pe_file dir ++ DumpDirName dir ++
          DumpThunksHeading pe_file dir ++ DumpDirThunks pe_file dir /\
    count_warning WNewStyleBoundInvalidIlt kUnsupported log =
      (if HasValidNonEmptyBoundImportDescList pe_file then 1 else 0)%nat /\
    (use_ilt dir = false ->
     DumpDirThunks pe_file dir =
       fst (DumpIltThunks pe_file 0 (iat_thunks pe_file dir))) /\
    (use_ilt dir = true -> iat dir <> 0 ->
     DumpThunksHeading pe_file dir = [Warning (WIlt false) kSuspicious] /\
     DumpDirThunks pe_file dir =
       Wcout LImportThunksIAT ::
       dumped pe_file false (iat_thunks pe_file dir)).
Proof.
  intros pe_file num dir Hprocessed Hstamp Hinvalid log. subst log.
  rewrite DumpImportDir_processed by assumption. cbn [fst].
  split; [ reflexivity | ]. split; [ | split ].
  - unfold DumpDirBody.
    rewrite count_warning_cons_Wcout, count_warning_app.
    rewrite (warns_only_count (WFailedToReadName :: thunk_warnings)
               WNewStyleBoundInvalidIlt kUnsupported
               (DumpDirName dir ++ _)).
    + unfold DumpDirStamps. rewrite Hstamp, Z.eqb_refl, Hinvalid.
      cbn [negb andb].
      destruct (HasValidNonEmptyBoundImportDescList pe_file);
        destruct (negb (GetForwarderChain dir =? 0)
                  && negb (GetForwarderChain dir =? static_cast_DWORD (-1)));
        reflexivity.
    + apply warns_only_app.
      { eapply warns_only_incl; [ | apply DumpDirName_warns ].
        intros m Hm; simpl in Hm |- *; intuition auto. }
      apply warns_only_app.
      { eapply warns_only_incl; [ | apply DumpThunksHeading_warns ].
        intros m Hm; simpl in Hm |- *; intuition auto. }
      eapply warns_only_incl; [ | apply DumpDirThunks_warns ].
      intros m Hm; simpl in Hm |- *; intuition auto.
    + simpl. intuition discriminate.
  - apply DumpDirThunks_no_ilt.
  - intros Huse Hiat.
    apply DumpDirThunks_invalid_ilt; try assumption.
    apply Hprocessed.
Qed.

(** C1 (amended) on the image with a bound import directory. *)
Lemma new_style_bound_invalid_ilt_witness :
  let log := fst (fst (DumpImportDir bound_dir_image 0 new_style_dir)) in
  log = Wcout LNewline ::
        DumpDirStamps bound_dir_image new_style_dir ++
        DumpDirName new_style_dir ++
        DumpThunksHeading bound_dir_image new_style_dir ++
        DumpDirThunks bound_dir_image new_style_dir /\
  count_warning WNewStyleBoundInvalidIlt kUnsupported log = 1%nat /\
  DumpDirThunks bound_dir_image new_style_dir =
    fst (DumpIltThunks bound_dir_image 0
           (iat_thunks bound_dir_image new_style_dir)).
Proof.
  destruct (new_style_bound_invalid_ilt bound_dir_image 0 new_style_dir)
    as (Hlog & Hcount & Hiat & _).
  - unfold processed. repeat split; try reflexivity; discriminate.
  - reflexivity.
  - reflexivity.
  - exact (conj Hlog (conj Hcount (Hiat eq_refl))).
Defined.

(** ** Skipped descriptors *)

(** C5.  A descriptor (not the virtual terminator) whose IAT RVA resolves to
    an empty thunk sequence is skipped: its iteration records exactly one
    warning, the Suspicious "IAT is empty/invalid", writes no name and no
    name warning, does not depend on what reading the name would give, and
    ends by [continue], so that the loop goes on with the next descriptor
    and the same counter. *)
Theorem empty_iat_descriptor_skipped :
  forall pe_file num dir rest,
    IsTlsAoiTerminated dir = false ->
    iat_thunks pe_file dir = [] ->
    let log := fst (fst (DumpImportDir pe_file num dir)) in
    DumpImportDir pe_file num dir =
      ([Wcout LNewline; Warning (WIat (iat_valid pe_file dir)) kSuspicious],
       Continue, num) /\
    DumpImportDirs pe_file num (dir :: rest) =
      log ++ DumpImportDirs pe_file num rest /\
    recorded log = [kSuspicious] /\
    count_warning (WIat (iat_valid pe_file dir)) kSuspicious log = 1%nat /\
    (forall name, ~ In (Wcout (LName name)) log) /\
    (forall t, ~ In (Warning WFailedToReadName t) log) /\
    (forall name,
       DumpImportDir pe_file num (with_name name dir) =
       DumpImportDir pe_file num dir).
Proof.
  intros pe_file num dir rest Htls Hempty log. subst log.
  pose proof (DumpImportDir_skipped pe_file dir num Htls Hempty) as Hskip.
  cbn [DumpImportDirs]. rewrite Hskip. cbn [fst].
  repeat split.
  - unfold count_warning. cbn [count_occ].
    destruct (Output_eq_dec (Wcout LNewline)
                (Warning (WIat (iat_valid pe_file dir)) kSuspicious));
      [ discriminate | ].
    destruct (Output_eq_dec
                (Warning (WIat (iat_valid pe_file dir)) kSuspicious)
                (Warning (WIat (iat_valid pe_file dir)) kSuspicious));
      [ reflexivity | congruence ].
  - intros name Hin. simpl in Hin. intuition discriminate.
  - intros t Hin. simpl in Hin. intuition discriminate.
  - intros name. apply (DumpImportDir_skipped pe_file (with_name name dir)).
    + exact Htls.
    + exact Hempty.
Qed.

(** C5 on a descriptor whose IAT RVA is unmappable. *)
Lemma empty_iat_descriptor_skipped_witness :
  DumpImportDir (skipped_image 2) 7 empty_iat_dir =
    ([Wcout LNewline; Warning (WIat false) kSuspicious], Continue, 7) /\
  DumpImportDirs (skipped_image 2) 7 [empty_iat_dir; empty_iat_dir] =
    [Wcout LNewline; Warning (WIat false) kSuspicious] ++
    DumpImportDirs (skipped_image 2) 7 [empty_iat_dir] /\
  recorded (fst (fst (DumpImportDir (skipped_image 2) 7 empty_iat_dir))) =
    [kSuspicious].
Proof.
  destruct (empty_iat_descriptor_skipped (skipped_image 2) 7 empty_iat_dir
              [empty_iat_dir] eq_refl eq_refl)
    as (Hiter & Hloop & Hrecorded & _).
  exact (conj Hiter (conj Hloop Hrecorded)).
Defined.

(** ** Unreadable names *)

(** C10.  A thunk dumped by name whose hint or name cannot be read records
    exactly one warning, of type Unsupported, and the walk goes on with the
    next thunk (in the structural walk and in the IAT pass alike).  A
    processed descriptor whose module name cannot be read records exactly one
    warning for it, of type Suspicious, and the rest of the descriptor (IAT
    RVA, heading, thunks) is dumped as usual. *)
Theorem name_read_failures_absorbed :
  forall pe_file,
    (forall thunk,
       ByOrdinal thunk = false ->
       GetHint pe_file (GetAddressOfData thunk) = None \/
       GetThunkName pe_file (GetAddressOfData thunk) = None ->
       recorded (DumpImportThunk pe_file thunk false) = [kUnsupported] /\
       count_warning WInvalidThunkName kUnsupported
         (DumpImportThunk pe_file thunk false) = 1%nat /\
       (forall count rest,
          count <> 1000 ->
          fst (DumpIltThunks pe_file count (thunk :: rest)) =
          DumpImportThunk pe_file thunk false ++
          fst (DumpIltThunks pe_file (count + 1) rest)) /\
       (forall dir count rest,
          ilt_valid pe_file dir = false ->
          ilt_empty pe_file dir = true ->
          DumpIatThunks pe_file dir count (thunk :: rest) =
          DumpImportThunk pe_file thunk false ++
          DumpIatThunks pe_file dir count rest)) /\
    (forall num dir,
       processed pe_file num dir ->
       GetName dir = None ->
       DumpImportDir pe_file num dir =
         (Wcout LNewline ::
          DumpDirStamps pe_file dir ++
          [Wcout (LNameRaw (GetNameRaw dir));
           Warning WFailedToReadName kSuspicious;
           Wcout (LFirstThunk (GetFirstThunk dir))] ++
          DumpThunksHeading pe_file dir ++ DumpDirThunks pe_file dir,
          Continue, static_cast_DWORD (num + 1)) /\
       recorded (DumpDirName dir) = [kSuspicious] /\
       count_warning WFailedToReadName kSuspicious
         (fst (fst (DumpImportDir pe_file num dir))) = 1%nat).
Proof.
  intros pe_file. split.
  - intros thunk Hordinal Hunreadable.
    assert (Hdump :
              DumpImportThunk pe_file thunk false =
              [Wcout LNewline;
               Wcout (LAddressOfData (GetAddressOfData thunk));
               Warning WInvalidThunkName kUnsupported] \/
              exists hint,
                DumpImportThunk pe_file thunk false =
                [Wcout LNewline;
                 Wcout (LAddressOfData (GetAddressOfData thunk));
                 Wcout (LHint hint);
                 Warning WInvalidThunkName kUnsupported]).
    { unfold DumpImportThunk. rewrite Hordinal. cbv zeta iota.
      destruct (GetHint pe_file (GetAddressOfData thunk)) as [hint | ];
        [ | left; reflexivity ].
      destruct Hunreadable as [Hhint | Hname]; [ discriminate | ].
      rewrite Hname. right. exists hint. reflexivity. }
    repeat split.
    + destruct Hdump as [-> | [hint ->]]; reflexivity.
    + destruct Hdump as [-> | [hint ->]]; reflexivity.
    + intros count rest Hcount. cbn [DumpIltThunks].
      apply Z.eqb_neq in Hcount. rewrite Hcount.
      destruct (DumpIltThunks pe_file (count + 1) rest). reflexivity.
    + intros dir count rest Hinvalid Hempty. cbn [DumpIatThunks].
      rewrite Hinvalid, Hempty, andb_false_r. reflexivity.
  - intros num dir Hprocessed Hname.
    rewrite DumpImportDir_processed by assumption.
    unfold DumpDirBody, DumpDirName. rewrite Hname. cbn [fst].
    repeat split.
    rewrite count_warning_cons_Wcout, count_warning_app.
    rewrite (warns_only_count stamp_warnings)
      by (try apply DumpDirStamps_warns; simpl; intuition discriminate).
    rewrite count_warning_app.
    rewrite (warns_only_count thunk_warnings WFailedToReadName kSuspicious
               (DumpThunksHeading pe_file dir ++ _)).
    + reflexivity.
    + apply warns_only_app;
        [ apply DumpThunksHeading_warns | apply DumpDirThunks_warns ].
    + simpl. intuition discriminate.
Qed.

(** C10 on a thunk whose hint is unreadable and a descriptor whose name
    is. *)
Lemma name_read_failures_absorbed_witness :
  (recorded (DumpImportThunk bad_names_image {| u1 := 0x5000 |} false) =
     [kUnsupported] /\
   fst (DumpIltThunks bad_names_image 0
          [{| u1 := 0x5000 |}; {| u1 := 0x3000 |}]) =
     DumpImportThunk bad_names_image {| u1 := 0x5000 |} false ++
     fst (DumpIltThunks bad_names_image (0 + 1) [{| u1 := 0x3000 |}])) /\
  (recorded (DumpDirName bad_names_dir) = [kSuspicious] /\
   count_warning WFailedToReadName kSuspicious
     (fst (fst (DumpImportDir bad_names_image 0 bad_names_dir))) = 1%nat).
Proof.
  destruct (name_read_failures_absorbed bad_names_image) as [Hthunk Hdir].
  split.
  - destruct (Hthunk {| u1 := 0x5000 |} eq_refl (or_introl eq_refl))
      as (Hrecorded & _ & Hwalk & _).
    split; [ exact Hrecorded | ].
    apply Hwalk. discriminate.
  - destruct (Hdir 0 bad_names_dir) as (_ & Hrecorded & Hcount).
    + unfold processed. repeat split; try reflexivity; discriminate.
    + reflexivity.
    + exact (conj Hrecorded Hcount).
Defined.

(** ** The descriptor loop *)

Section DescriptorLoop.

Variable pe_file : PeFile.

Lemma DumpImportDir_continue num dir log num' :
  DumpImportDir pe_file num dir = (log, Continue, num') ->
  IsTlsAoiTerminated dir = false /\ warns_only continue_warnings log.
Proof.
  unfold DumpImportDir.
  destruct (IsTlsAoiTerminated dir); [ discriminate | ].
  destruct (is_empty (iat_thunks pe_file dir)).
  - intros [= <- _]. split; [ reflexivity | ].
    constructor; [ exact I | ]. constructor; [ | constructor ].
    destruct (iat_valid pe_file dir); simpl; auto.
  - destruct (num =? 1000); [ discriminate | ].
    intros [= <- _]. split; [ reflexivity | ].
    constructor; [ exact I | ].
    eapply warns_only_incl; [ | apply DumpDirBody_warns ].
    intros m Hm. right. right. exact Hm.
Qed.

Lemma DumpImportDir_break num dir log num' :
  DumpImportDir pe_file num dir = (log, Break, num') ->
  (IsTlsAoiTerminated dir = true /\
   log = [Wcout LNewline; Warning WTlsAoiTrick kSuspicious]) \/
  (IsTlsAoiTerminated dir = false /\
   log = [Wcout LNewline; Warning WImportDirCeiling kUnsupported]).
Proof.
  unfold DumpImportDir.
  destruct (IsTlsAoiTerminated dir).
  - intros [= <- _]. left. split; reflexivity.
  - destruct (is_empty (iat_thunks pe_file dir)); [ discriminate | ].
    destruct (num =? 1000); [ | discriminate ].
    intros [= <- _]. right. split; reflexivity.
Qed.

(** When the loop records the virtual-terminator warning, it does so at the
    first terminated descriptor, after iterations that all continued, and
    nothing follows. *)
Lemma DumpImportDirs_terminator dirs : forall num,
  In (Warning WTlsAoiTrick kSuspicious) (DumpImportDirs pe_file num dirs) ->
  exists pre dir post,
    dirs = pre ++ dir :: post /\
    IsTlsAoiTerminated dir = true /\
    Forall (fun d => IsTlsAoiTerminated d = false) pre /\
    DumpImportDirs pe_file num dirs =
      DumpImportDirs pe_file num pre ++
      [Wcout LNewline; Warning WTlsAoiTrick kSuspicious] /\
    warns_only continue_warnings (DumpImportDirs pe_file num pre).
Proof.
  induction dirs as [ | dir rest IH ]; intros num Hin; [ destruct Hin | ].
  cbn [DumpImportDirs] in Hin |- *.
  destruct (DumpImportDir pe_file num dir) as [[log ctl] num'] eqn:Hiter.
  destruct ctl.
  - destruct (DumpImportDir_continue _ _ _ _ Hiter) as [Htls Hwarns].
    apply in_app_or in Hin. destruct Hin as [Hin | Hin].
    + exfalso. revert Hin. eapply warns_only_not_In; [ exact Hwarns | ].
      simpl. intuition discriminate.
    + destruct (IH num' Hin)
        as (pre & d & post & -> & Hd & Hpre & Hlog & Hprewarns).
      exists (dir :: pre), d, post.
      cbn [DumpImportDirs]. rewrite Hiter.
      repeat split.
      * exact Hd.
      * constructor; assumption.
      * rewrite Hlog. apply app_assoc.
      * apply warns_only_app; assumption.
  - destruct (DumpImportDir_break _ _ _ _ Hiter) as [[Htls ->] | [_ ->]].
    + exists [], dir, rest. repeat split; [ exact Htls | constructor .. ].
    + exfalso. simpl in Hin. intuition discriminate.
Qed.

(** As long as the counter plus the number of descriptors that are not
    skipped stays within 1000, the loop never records the ceiling warning. *)
Lemma DumpImportDirs_below_ceiling dirs : forall num,
  0 <= num ->
  num + Z.of_nat (length (filter (fun d => negb (skipped pe_file d)) dirs))
    <= 1000 ->
  warns_only (WTlsAoiTrick :: continue_warnings)
    (DumpImportDirs pe_file num dirs).
Proof.
  induction dirs as [ | dir rest IH ]; intros num Hnum Hbound;
    [ constructor | ].
  cbn [DumpImportDirs filter] in Hbound |- *. unfold skipped in Hbound at 1.
  destruct (IsTlsAoiTerminated dir) eqn:Htls.
  - rewrite DumpImportDir_terminated by assumption.
    constructor; [ exact I | ]. constructor; [ simpl; auto | constructor ].
  - destruct (iat_thunks pe_file dir) as [ | thunk thunks ] eqn:Hiat.
    + rewrite DumpImportDir_skipped by assumption.
      cbn [is_empty negb] in Hbound.
      apply warns_only_app; [ | apply IH; assumption ].
      constructor; [ exact I | ]. constructor; [ | constructor ].
      destruct (iat_valid pe_file dir); simpl; auto.
    + cbn [is_empty negb length] in Hbound.
      rewrite DumpImportDir_processed
        by (repeat split; [ assumption | rewrite Hiat; discriminate | lia ]).
      unfold static_cast_DWORD. rewrite Z.mod_small by lia.
      apply warns_only_app with (a := Wcout LNewline :: _);
        [ | apply IH; lia ].
      constructor; [ exact I | ].
      eapply warns_only_incl; [ | apply DumpDirBody_warns ].
      intros m Hm. right. right. right. exact Hm.
Qed.

(** Without virtual terminator, once the counter plus the number of
    descriptors that are not skipped exceeds 1000 the loop records the
    ceiling warning, once. *)
Lemma DumpImportDirs_above_ceiling dirs : forall num,
  0 <= num <= 1000 ->
  Forall (fun d => IsTlsAoiTerminated d = false) dirs ->
  num + Z.of_nat (length (filter (fun d => negb (skipped pe_file d)) dirs))
    > 1000 ->
  count_warning WImportDirCeiling kUnsupported
    (DumpImportDirs pe_file num dirs) = 1%nat.
Proof.
  induction dirs as [ | dir rest IH ]; intros num Hnum Htls Hbound.
  - cbn [filter length] in Hbound. lia.
  - cbn [DumpImportDirs filter] in Hbound |- *. unfold skipped in Hbound at 1.
    inversion Htls as [ | d ds Hdir Hrest ]; subst d ds.
    destruct (iat_thunks pe_file dir) as [ | thunk thunks ] eqn:Hiat.
    + rewrite DumpImportDir_skipped by assumption.
      cbn [is_empty negb] in Hbound.
      rewrite count_warning_app, IH by assumption. reflexivity.
    + cbn [is_empty negb length] in Hbound.
      destruct (Z.eq_dec num 1000) as [-> | Hne].
      * rewrite DumpImportDir_ceiling
          by (try assumption; rewrite Hiat; discriminate).
        reflexivity.
      * rewrite DumpImportDir_processed
          by (repeat split;
              [ assumption | rewrite Hiat; discriminate | assumption ]).
        unfold static_cast_DWORD. rewrite Z.mod_small by lia.
        rewrite count_warning_app, count_warning_cons_Wcout.
        rewrite (warns_only_count body_warnings)
          by (try apply DumpDirBody_warns; simpl; intuition discriminate).
        apply IH; [ lia | assumption | lia ].
Qed.

(** Descriptors none of which is the virtual terminator never make the loop
    record the virtual-terminator warning. *)
Lemma DumpImportDirs_no_terminator dirs : forall num,
  Forall (fun d => IsTlsAoiTerminated d = false) dirs ->
  warns_only (WImportDirCeiling :: continue_warnings)
    (DumpImportDirs pe_file num dirs).
Proof.
  induction dirs as [ | dir rest IH ]; intros num Htls; [ constructor | ].
  inversion Htls as [ | d ds Hdir Hrest ]; subst d ds.
  cbn [DumpImportDirs].
  destruct (DumpImportDir pe_file num dir) as [[log ctl] num'] eqn:Hiter.
  destruct ctl.
  - destruct (DumpImportDir_continue _ _ _ _ Hiter) as [_ Hwarns].
    apply warns_only_app; [ | apply IH; assumption ].
    eapply warns_only_incl; [ | exact Hwarns ].
    intros m Hm. right. exact Hm.
  - destruct (DumpImportDir_break _ _ _ _ Hiter) as [[Hterm _] | [_ ->]];
      [ congruence | ].
    constructor; [ exact I | ]. constructor; [ simpl; auto | constructor ].
Qed.

(** A virtual terminator that follows descriptors of which at most
    [1000 - num] are not skipped is reached: the loop dumps what precedes
    it, records the warning and ends. *)
Lemma DumpImportDirs_reaches_terminator pre dir post : forall num,
  0 <= num ->
  Forall (fun d => IsTlsAoiTerminated d = false) pre ->
  num + Z.of_nat (length (filter (fun d => negb (skipped pe_file d)) pre))
    <= 1000 ->
  IsTlsAoiTerminated dir = true ->
  DumpImportDirs pe_file num (pre ++ dir :: post) =
  DumpImportDirs pe_file num pre ++
  [Wcout LNewline; Warning WTlsAoiTrick kSuspicious].
Proof.
  intros num Hnum Htls Hcount Hdir. revert num Hnum Hcount.
  induction Htls as [ | d pre Hd _ IH ]; intros num Hnum Hcount.
  - cbn [app DumpImportDirs].
    rewrite DumpImportDir_terminated by assumption. reflexivity.
  - cbn [filter] in Hcount. unfold skipped in Hcount at 1.
    cbn [app DumpImportDirs].
    destruct (iat_thunks pe_file d) as [ | thunk thunks ] eqn:Hiat.
    + rewrite DumpImportDir_skipped by assumption.
      cbn [is_empty negb] in Hcount.
      rewrite IH by assumption. apply app_assoc.
    + cbn [is_empty negb length] in Hcount.
      rewrite DumpImportDir_processed
        by (repeat split; [ assumption | rewrite Hiat; discriminate | lia ]).
      unfold static_cast_DWORD. rewrite Z.mod_small by lia.
      rewrite IH by lia. apply app_assoc.
Qed.

(** When more than [1000 - num] of the descriptors are not skipped (and none
    is the virtual terminator), the loop ends among them: what follows them
    is never examined. *)
Lemma DumpImportDirs_ends_before pre rest : forall num,
  0 <= num <= 1000 ->
  Forall (fun d => IsTlsAoiTerminated d = false) pre ->
  num + Z.of_nat (length (filter (fun d => negb (skipped pe_file d)) pre))
    > 1000 ->
  DumpImportDirs pe_file num (pre ++ rest) = DumpImportDirs pe_file num pre.
Proof.
  intros num Hnum Htls. revert num Hnum.
  induction Htls as [ | d pre Hd _ IH ]; intros num Hnum Hcount.
  - cbn [filter length] in Hcount. lia.
  - cbn [filter] in Hcount. unfold skipped in Hcount at 1.
    cbn [app DumpImportDirs].
    destruct (iat_thunks pe_file d) as [ | thunk thunks ] eqn:Hiat.
    + rewrite DumpImportDir_skipped by assumption.
      cbn [is_empty negb] in Hcount.
      rewrite IH by assumption. reflexivity.
    + cbn [is_empty negb length] in Hcount.
      destruct (Z.eq_dec num 1000) as [-> | Hne].
      * rewrite DumpImportDir_ceiling
          by (try assumption; rewrite Hiat; discriminate).
        reflexivity.
      * rewrite DumpImportDir_processed
          by (repeat split;
              [ assumption | rewrite Hiat; discriminate | assumption ]).
        unfold static_cast_DWORD. rewrite Z.mod_small by lia.
        rewrite IH by lia. reflexivity.
Qed.

End DescriptorLoop.

Lemma DumpImports_header_warns pe_file :
  warns_only [WEmptyImportDir]
    (if negb (is_empty (ImportDirList pe_file)) then [Wcout LImportDirs]
     else [Warning WEmptyImportDir kSuspicious]).
Proof.
  destruct (negb (is_empty (ImportDirList pe_file)));
    (constructor; [ simpl; auto | constructor ]).
Qed.

(** C6.  A table whose first TLS-AOI terminated descriptor [dir] is reached
    by the loop, that is, preceded by at most 1000 descriptors that are not
    skipped: the enumeration stops at [dir].  The log of the loop is the log
    of the descriptors before [dir] followed by the warning, whatever comes
    after [dir]; the Suspicious virtual-terminator warning is recorded
    exactly once and no descriptor ceiling warning is recorded for the
    table.  (When more than 1000 descriptors that are not skipped precede
    [dir], the loop has ended at the ceiling before examining it: the
    terminator is not detected, and the ceiling warning is recorded
    instead.) *)
Theorem tls_aoi_terminates_enumeration :
  forall pe_file pre dir post,
    ImportDirList pe_file = pre ++ dir :: post ->
    Forall (fun d => IsTlsAoiTerminated d = false) pre ->
    IsTlsAoiTerminated dir = true ->
    ((length (filter (fun d => negb (skipped pe_file d)) pre) <= 1000)%nat ->
     DumpImports pe_file =
       Wcout LImportDirs ::
       DumpImportDirs pe_file 0 pre ++
       [Wcout LNewline; Warning WTlsAoiTrick kSuspicious] /\
     (forall t,
        count_warning WTlsAoiTrick t (DumpImportDirs pe_file 0 pre) = 0%nat) /\
     count_warning WTlsAoiTrick kSuspicious (DumpImports pe_file) = 1%nat /\
     (forall t,
        count_warning WImportDirCeiling t (DumpImports pe_file) = 0%nat)) /\
    ((length (filter (fun d => negb (skipped pe_file d)) pre) > 1000)%nat ->
     DumpImports pe_file = Wcout LImportDirs :: DumpImportDirs pe_file 0 pre /\
     (forall t, count_warning WTlsAoiTrick t (DumpImports pe_file) = 0%nat) /\
     count_warning WImportDirCeiling kUnsupported (DumpImports pe_file)
     = 1%nat).
Proof.
  intros pe_file pre dir post Hdirs Hpre Hdir.
  assert (Hheader :
            DumpImports pe_file =
            Wcout LImportDirs ::
            DumpImportDirs pe_file 0 (pre ++ dir :: post)).
  { unfold DumpImports. rewrite Hdirs.
    destruct pre; reflexivity. }
  assert (Hno_tls :
            forall t,
              count_warning WTlsAoiTrick t (DumpImportDirs pe_file 0 pre)
              = 0%nat).
  { intros t. eapply warns_only_count.
    - apply DumpImportDirs_no_terminator. exact Hpre.
    - simpl. intuition discriminate. }
  split.
  - intros Hreached.
    assert (Hlog :
              DumpImports pe_file =
              Wcout LImportDirs ::
              DumpImportDirs pe_file 0 pre ++
              [Wcout LNewline; Warning WTlsAoiTrick kSuspicious]).
    { rewrite Hheader.
      rewrite DumpImportDirs_reaches_terminator by (try assumption; lia).
      reflexivity. }
    split; [ exact Hlog | ]. split; [ exact Hno_tls | ]. split.
    + rewrite Hlog, count_warning_cons_Wcout, count_warning_app, Hno_tls.
      reflexivity.
    + intros t.
      rewrite Hlog, count_warning_cons_Wcout, count_warning_app.
      rewrite (warns_only_count (WTlsAoiTrick :: continue_warnings)
                 WImportDirCeiling t (DumpImportDirs pe_file 0 pre)).
      * destruct t; reflexivity.
      * apply DumpImportDirs_below_ceiling; lia.
      * simpl. intuition discriminate.
  - intros Hmissed.
    assert (Hlog :
              DumpImports pe_file =
              Wcout LImportDirs :: DumpImportDirs pe_file 0 pre).
    { rewrite Hheader.
      rewrite DumpImportDirs_ends_before by (try assumption; lia).
      reflexivity. }
    split; [ exact Hlog | ]. split.
    + intros t. rewrite Hlog, count_warning_cons_Wcout. apply Hno_tls.
    + rewrite Hlog, count_warning_cons_Wcout.
      apply DumpImportDirs_above_ceiling; [ lia | assumption | lia ].
Qed.

(** C6 on a table of three descriptors, the second one terminated, and on a
    table whose terminator follows 1001 processed descriptors. *)
Lemma tls_aoi_terminates_enumeration_witness :
  (DumpImports vterm_image =
     Wcout LImportDirs ::
     DumpImportDirs vterm_image 0 [descriptor 0 0 0x2000] ++
     [Wcout LNewline; Warning WTlsAoiTrick kSuspicious] /\
   (forall t,
      count_warning WTlsAoiTrick t
        (DumpImportDirs vterm_image 0 [descriptor 0 0 0x2000]) = 0%nat) /\
   count_warning WTlsAoiTrick kSuspicious (DumpImports vterm_image) = 1%nat /\
   (forall t,
      count_warning WImportDirCeiling t (DumpImports vterm_image) = 0%nat)) /\
  ((forall t,
      count_warning WTlsAoiTrick t
        (DumpImports
           (sample_image [] [0x3000; 0]
              (repeat (descriptor 0 0 0x2000) 1001 ++
               [tls_terminated (descriptor 0 0 0x2000)]) [])) = 0%nat) /\
   count_warning WImportDirCeiling kUnsupported
     (DumpImports
        (sample_image [] [0x3000; 0]
           (repeat (descriptor 0 0 0x2000) 1001 ++
            [tls_terminated (descriptor 0 0 0x2000)]) [])) = 1%nat).
Proof.
  split.
  - apply (proj1 (tls_aoi_terminates_enumeration vterm_image
                    [descriptor 0 0 0x2000]
                    (tls_terminated (descriptor 0 0 0x2000))
                    [descriptor 0 0 0x2000] eq_refl
                    ltac:(repeat constructor) eq_refl)).
    vm_compute. lia.
  - apply (proj2 (tls_aoi_terminates_enumeration
                    (sample_image [] [0x3000; 0]
                       (repeat (descriptor 0 0 0x2000) 1001 ++
                        [tls_terminated (descriptor 0 0 0x2000)]) [])
                    (repeat (descriptor 0 0 0x2000) 1001)
                    (tls_terminated (descriptor 0 0 0x2000))
                    [] eq_refl
                    ltac:(apply Forall_forall; intros d Hd;
                          apply repeat_spec in Hd; subst d; reflexivity)
                    eq_refl)).
    vm_compute. apply Nat.lt_succ_diag_r.
Defined.

(** C9.  The descriptor ceiling counts the descriptors that are not skipped.
    A skipped descriptor leaves [num_import_dirs] as it was.  Whatever the
    number of skipped descriptors, no ceiling warning is recorded for an
    image with at most 1000 descriptors that are not skipped; and (without
    virtual terminator) the warning is recorded, once, as soon as more than
    1000 descriptors are not skipped. *)
Theorem skipped_descriptors_not_counted :
  forall pe_file,
    (forall num dir,
       IsTlsAoiTerminated dir = false ->
       skipped pe_file dir = true ->
       snd (DumpImportDir pe_file num dir) = num /\
       snd (fst (DumpImportDir pe_file num dir)) = Continue) /\
    ((length (filter (fun dir => negb (skipped pe_file dir))
                (ImportDirList pe_file)) <= 1000)%nat ->
     forall t,
       count_warning WImportDirCeiling t (DumpImports pe_file) = 0%nat) /\
    (Forall (fun dir => IsTlsAoiTerminated dir = false)
       (ImportDirList pe_file) ->
     (length (filter (fun dir => negb (skipped pe_file dir))
                (ImportDirList pe_file)) > 1000)%nat ->
     count_warning WImportDirCeiling kUnsupported (DumpImports pe_file)
     = 1%nat).
Proof.
  intros pe_file. split; [ | split ].
  - intros num dir Htls Hskipped. unfold skipped in Hskipped.
    apply is_empty_nil in Hskipped.
    rewrite DumpImportDir_skipped by assumption. split; reflexivity.
  - intros Hbound t. unfold DumpImports. rewrite count_warning_app.
    rewrite (warns_only_count [WEmptyImportDir])
      by (try apply DumpImports_header_warns; simpl; intuition discriminate).
    eapply warns_only_count.
    + apply DumpImportDirs_below_ceiling; lia.
    + simpl. intuition discriminate.
  - intros Htls Hbound. unfold DumpImports. rewrite count_warning_app.
    rewrite (warns_only_count [WEmptyImportDir])
      by (try apply DumpImports_header_warns; simpl; intuition discriminate).
    apply DumpImportDirs_above_ceiling; [ lia | assumption | lia ].
Qed.

(** C9 on a table of 1500 skipped descriptors and on one of 1001 processed
    descriptors. *)
Lemma skipped_descriptors_not_counted_witness :
  (snd (DumpImportDir (skipped_image 1500) 5 empty_iat_dir) = 5 /\
   snd (fst (DumpImportDir (skipped_image 1500) 5 empty_iat_dir))
   = Continue) /\
  (length (ImportDirList (skipped_image 1500)) = 1500%nat /\
   forall t,
     count_warning WImportDirCeiling t (DumpImports (skipped_image 1500))
     = 0%nat) /\
  count_warning WImportDirCeiling kUnsupported
    (DumpImports (crowded_image 1001)) = 1%nat.
Proof.
  split; [ | split ].
  - apply (proj1 (skipped_descriptors_not_counted (skipped_image 1500)));
      reflexivity.
  - split; [ apply repeat_length | ].
    apply (proj1 (proj2 (skipped_descriptors_not_counted
                           (skipped_image 1500)))).
    vm_compute. apply Nat.le_0_l.
  - apply (proj2 (proj2 (skipped_descriptors_not_counted
                           (crowded_image 1001)))).
    + apply Forall_forall. intros dir Hdir.
      apply repeat_spec in Hdir. subst dir. reflexivity.
    + vm_compute. apply Nat.lt_succ_diag_r.
Defined.

(** * Further properties of [DumpImports] *)

Section MoreOfTheLoop.

Variable pe_file : PeFile.

(** The descriptor loop records no warning about the directory as a whole. *)
Lemma DumpImportDirs_warns dirs : forall num,
  warns_only (WTlsAoiTrick :: WImportDirCeiling :: continue_warnings)
    (DumpImportDirs pe_file num dirs).
Proof.
  induction dirs as [ | dir rest IH ]; intros num; [ constructor | ].
  cbn [DumpImportDirs].
  destruct (DumpImportDir pe_file num dir) as [[log ctl] num'] eqn:Hiter.
  destruct ctl.
  - destruct (DumpImportDir_continue _ _ _ _ _ Hiter) as [_ Hwarns].
    apply warns_only_app; [ | apply IH ].
    eapply warns_only_incl; [ | exact Hwarns ].
    intros m Hm. right. right. exact Hm.
  - destruct (DumpImportDir_break _ _ _ _ _ Hiter) as [[_ ->] | [_ ->]];
      (constructor; [ exact I | ]; constructor; [ simpl; auto | constructor ]).
Qed.

(** The counter that the structural walk leaves. *)
Lemma DumpIltThunks_count thunks :
  snd (DumpIltThunks pe_file 0 thunks) =
  Z.of_nat (Nat.min (length thunks) 1001).
Proof.
  destruct (Z_le_gt_dec (Z.of_nat (length thunks)) 1000) as [Hle | Hgt].
  - rewrite DumpIltThunks_short by lia. cbn [snd]. lia.
  - rewrite DumpIltThunks_long by lia. cbn [snd]. lia.
Qed.

(** A thunk dumped as bound is written as its raw value, whatever its
    ordinal bit and its name data. *)
Lemma dumped_bound thunks :
  dumped pe_file true thunks =
  flat_map (fun thunk => [Wcout LNewline; Wcout (LFunction (u1 thunk))])
    thunks.
Proof. reflexivity. Qed.

Lemma recorded_dumped_bound thunks :
  recorded (dumped pe_file true thunks) = [].
Proof.
  induction thunks as [ | thunk thunks IH ]; [ reflexivity | ].
  rewrite dumped_cons, recorded_app, IH. reflexivity.
Qed.

Lemma recorded_DumpImportThunk_named thunk :
  named pe_file thunk ->
  recorded (DumpImportThunk pe_file thunk false) = [].
Proof.
  unfold named, DumpImportThunk. cbv zeta.
  intros [-> | [Hhint Hname]]; [ reflexivity | ].
  destruct (ByOrdinal thunk); [ reflexivity | ].
  destruct (GetHint pe_file (GetAddressOfData thunk)); [ | congruence ].
  destruct (GetThunkName pe_file (GetAddressOfData thunk)); [ | congruence ].
  reflexivity.
Qed.

Lemma recorded_dumped_named thunks :
  Forall (named pe_file) thunks ->
  recorded (dumped pe_file false thunks) = [].
Proof.
  induction 1 as [ | thunk thunks Hthunk _ IH ]; [ reflexivity | ].
  rewrite dumped_cons, recorded_app, IH.
  rewrite recorded_DumpImportThunk_named by assumption. reflexivity.
Qed.

End MoreOfTheLoop.

(** X1.  An image without import descriptors: the whole dump is the one
    Suspicious warning "Empty or invalid import directory".  That warning is
    never recorded for an image that has descriptors, whose dump starts with
    the heading instead. *)
Theorem empty_import_directory :
  forall pe_file,
    (ImportDirList pe_file = [] ->
     DumpImports pe_file = [Warning WEmptyImportDir kSuspicious]) /\
    (ImportDirList pe_file <> [] ->
     hd_error (DumpImports pe_file) = Some (Wcout LImportDirs) /\
     forall t, ~ In (Warning WEmptyImportDir t) (DumpImports pe_file)).
Proof.
  intros pe_file. unfold DumpImports. split.
  - intros ->. reflexivity.
  - intros Hdirs. apply is_empty_not_nil in Hdirs. rewrite Hdirs.
    split; [ reflexivity | ].
    intros t [Hin | Hin]; [ discriminate | ].
    revert Hin. eapply warns_only_not_In; [ apply DumpImportDirs_warns | ].
    simpl. intuition discriminate.
Qed.

(** X1 on the image without descriptors and on one with a descriptor. *)
Lemma empty_import_directory_witness :
  DumpImports (sample_image [] [] [] []) =
    [Warning WEmptyImportDir kSuspicious] /\
  hd_error (DumpImports same_thunks_image) = Some (Wcout LImportDirs) /\
  forall t, ~ In (Warning WEmptyImportDir t) (DumpImports same_thunks_image).
Proof.
  split.
  - apply (proj1 (empty_import_directory (sample_image [] [] [] []))).
    reflexivity.
  - apply (proj2 (empty_import_directory same_thunks_image)).
    discriminate.
Defined.

(** X2.  For a processed descriptor the Unsupported warning about an
    old-style forwarder chain is recorded exactly once when the forwarder
    chain is neither 0 nor [0xFFFFFFFF], and not at all when it is one of the
    two. *)
Theorem forwarder_chain_warning :
  forall pe_file num dir,
    processed pe_file num dir ->
    let log := fst (fst (DumpImportDir pe_file num dir)) in
    (GetForwarderChain dir = 0 \/ GetForwarderChain dir = 0xFFFFFFFF ->
     forall t, count_warning WForwarderChain t log = 0%nat) /\
    (GetForwarderChain dir <> 0 -> GetForwarderChain dir <> 0xFFFFFFFF ->
     count_warning WForwarderChain kUnsupported log = 1%nat).
Proof.
  intros pe_file num dir Hprocessed log. subst log.
  rewrite DumpImportDir_processed by assumption. cbn [fst].
  unfold DumpDirBody.
  assert (Hrest : forall t,
             count_warning WForwarderChain t
               (DumpDirName dir ++ DumpThunksHeading pe_file dir ++
                DumpDirThunks pe_file dir) = 0%nat).
  { intros t.
    apply (warns_only_count (WFailedToReadName :: thunk_warnings)).
    - apply warns_only_app.
      { eapply warns_only_incl; [ | apply DumpDirName_warns ].
        intros m Hm; simpl in Hm |- *; intuition auto. }
      apply warns_only_app.
      { eapply warns_only_incl; [ | apply DumpThunksHeading_warns ].
        intros m Hm; simpl in Hm |- *; intuition auto. }
      eapply warns_only_incl; [ | apply DumpDirThunks_warns ].
      intros m Hm; simpl in Hm |- *; intuition auto.
    - simpl. intuition discriminate. }
  change 0xFFFFFFFF with (static_cast_DWORD (-1)).
  split.
  - intros Hunused t.
    rewrite count_warning_cons_Wcout, count_warning_app, Hrest.
    unfold DumpDirStamps.
    assert (Hcond :
              negb (GetForwarderChain dir =? 0)
              && negb (GetForwarderChain dir =? static_cast_DWORD (-1))
              = false).
    { destruct Hunused as [-> | ->]; [ reflexivity | ].
      rewrite Z.eqb_refl. apply andb_false_r. }
    rewrite Hcond.
    destruct (GetTimeDateStamp dir =? static_cast_DWORD (-1));
      [ destruct (negb (ilt_valid pe_file dir)
                  && HasValidNonEmptyBoundImportDescList pe_file) | ];
      destruct t; reflexivity.
  - intros Hnonzero Hnotmax.
    rewrite count_warning_cons_Wcout, count_warning_app, Hrest.
    unfold DumpDirStamps.
    apply Z.eqb_neq in Hnonzero, Hnotmax. rewrite Hnonzero, Hnotmax.
    destruct (GetTimeDateStamp dir =? static_cast_DWORD (-1));
      [ destruct (negb (ilt_valid pe_file dir)
                  && HasValidNonEmptyBoundImportDescList pe_file) | ];
      reflexivity.
Qed.

(** X2 on a descriptor with forwarder chain 5 and on one with
    [0xFFFFFFFF]. *)
Lemma forwarder_chain_warning_witness :
  count_warning WForwarderChain kUnsupported
    (fst (fst (DumpImportDir same_thunks_image 0
                 (with_forwarder_chain 5 same_thunks_dir)))) = 1%nat /\
  (forall t,
     count_warning WForwarderChain t
       (fst (fst (DumpImportDir same_thunks_image 0
                    (with_forwarder_chain 0xFFFFFFFF same_thunks_dir))))
     = 0%nat).
Proof.
  split.
  - apply (forwarder_chain_warning same_thunks_image 0
             (with_forwarder_chain 5 same_thunks_dir)).
    + unfold processed. repeat split; try reflexivity; discriminate.
    + discriminate.
    + discriminate.
  - apply (forwarder_chain_warning same_thunks_image 0
             (with_forwarder_chain 0xFFFFFFFF same_thunks_dir)).
    + unfold processed. repeat split; try reflexivity; discriminate.
    + right. reflexivity.
Defined.

(** X3.  For a processed descriptor the "ILT is empty/invalid" warning
    always concerns a separate ILT: when the structural sequence is empty the
    descriptor uses an ILT, the heading is that Suspicious warning and the
    structural walk writes nothing; when no ILT is used the heading names
    the IAT and no ILT warning is recorded for the descriptor. *)
Theorem ilt_warning_needs_used_ilt :
  forall pe_file num dir,
    processed pe_file num dir ->
    (ilt_empty pe_file dir = true ->
     use_ilt dir = true /\
     DumpThunksHeading pe_file dir =
       [Warning (WIlt (ilt_valid pe_file dir)) kSuspicious] /\
     DumpIltThunks pe_file 0 (ilt_thunks pe_file dir) = ([], 0)) /\
    (use_ilt dir = false ->
     DumpThunksHeading pe_file dir = [Wcout (LImportThunks false)] /\
     forall b t,
       count_warning (WIlt b) t (fst (fst (DumpImportDir pe_file num dir)))
       = 0%nat).
Proof.
  intros pe_file num dir Hprocessed.
  assert (Hno_ilt : use_ilt dir = false -> ilt_empty pe_file dir = false).
  { intros Huse. unfold ilt_empty.
    rewrite ilt_thunks_no_ilt by assumption.
    apply is_empty_not_nil. apply Hprocessed. }
  split.
  - intros Hempty.
    assert (Huse : use_ilt dir = true).
    { destruct (use_ilt dir); [ reflexivity | ].
      rewrite Hno_ilt in Hempty by reflexivity. discriminate. }
    repeat split; [ exact Huse | | ].
    + unfold DumpThunksHeading. rewrite Hempty. reflexivity.
    + unfold ilt_empty in Hempty. apply is_empty_nil in Hempty.
      rewrite Hempty. reflexivity.
  - intros Huse. pose proof (Hno_ilt Huse) as Hnonempty.
    assert (Hheading :
              DumpThunksHeading pe_file dir = [Wcout (LImportThunks false)]).
    { unfold DumpThunksHeading. rewrite Hnonempty, Huse. reflexivity. }
    split; [ exact Hheading | ].
    intros b t. rewrite DumpImportDir_processed by assumption. cbn [fst].
    unfold DumpDirBody. rewrite Hheading.
    rewrite DumpDirThunks_no_ilt by assumption.
    apply (warns_only_count
             (WFailedToReadName :: WInvalidThunkName :: WImportThunkCeiling
                :: stamp_warnings)).
    + apply (warns_only_app _ [Wcout LNewline]); [ repeat constructor | ].
      apply warns_only_app.
      { eapply warns_only_incl; [ | apply DumpDirStamps_warns ].
        intros m Hm; simpl in Hm |- *; intuition auto. }
      apply warns_only_app.
      { eapply warns_only_incl; [ | apply DumpDirName_warns ].
        intros m Hm; simpl in Hm |- *; intuition auto. }
      apply (warns_only_app _ [Wcout (LImportThunks false)]);
        [ repeat constructor | ].
      eapply warns_only_incl; [ | apply DumpIltThunks_warns ].
      intros m Hm; simpl in Hm |- *; intuition auto.
    + simpl. intuition discriminate.
Qed.

(** X3 on a descriptor with an unmappable ILT RVA and on one whose two thunk
    RVAs are equal. *)
Lemma ilt_warning_needs_used_ilt_witness :
  (use_ilt invalid_ilt_dir = true /\
   DumpThunksHeading (invalid_ilt_image 1) invalid_ilt_dir =
     [Warning (WIlt (ilt_valid (invalid_ilt_image 1) invalid_ilt_dir))
        kSuspicious] /\
   DumpIltThunks (invalid_ilt_image 1) 0
     (ilt_thunks (invalid_ilt_image 1) invalid_ilt_dir) = ([], 0)) /\
  (DumpThunksHeading same_thunks_image same_thunks_dir =
     [Wcout (LImportThunks false)] /\
   forall b t,
     count_warning (WIlt b) t
       (fst (fst (DumpImportDir same_thunks_image 0 same_thunks_dir)))
     = 0%nat).
Proof.
  split.
  - apply (proj1 (ilt_warning_needs_used_ilt (invalid_ilt_image 1) 0
                    invalid_ilt_dir
                    ltac:(unfold processed; repeat split;
                          try reflexivity; discriminate))).
    reflexivity.
  - apply (proj2 (ilt_warning_needs_used_ilt same_thunks_image 0
                    same_thunks_dir
                    ltac:(unfold processed; repeat split;
                          try reflexivity; discriminate))).
    reflexivity.
Defined.

(** X4.  For a descriptor that uses a mappable ILT of at most 1000 thunks
    and whose IAT is not longer than the ILT, the separate IAT pass writes
    every IAT thunk as a bound function address (whatever its ordinal bit,
    without reading name data) and records no warning at all. *)
Theorem iat_pass_matching_tables :
  forall pe_file dir,
    use_ilt dir = true ->
    iat dir <> 0 ->
    ilt_valid pe_file dir = true ->
    iat_thunks pe_file dir <> [] ->
    (length (iat_thunks pe_file dir) <= length (ilt_thunks pe_file dir))%nat ->
    (length (ilt_thunks pe_file dir) <= 1000)%nat ->
    let pass :=
      DumpIatPass pe_file dir
        (snd (DumpIltThunks pe_file 0 (ilt_thunks pe_file dir))) in
    pass =
      Wcout LImportThunksIAT ::
      flat_map (fun thunk => [Wcout LNewline; Wcout (LFunction (u1 thunk))])
        (iat_thunks pe_file dir) /\
    recorded pass = [].
Proof.
  intros pe_file dir Huse Hiat Hvalid Hnonempty Hshorter Hceiling pass.
  subst pass.
  assert (Hilt : ilt_empty pe_file dir = false).
  { unfold ilt_empty. apply is_empty_not_nil. intros Hnil.
    rewrite Hnil in Hshorter. cbn [length] in Hshorter.
    destruct (iat_thunks pe_file dir); [ congruence | ].
    cbn [length] in Hshorter. lia. }
  assert (Hpass :
            DumpIatPass pe_file dir
              (snd (DumpIltThunks pe_file 0 (ilt_thunks pe_file dir))) =
            Wcout LImportThunksIAT ::
            dumped pe_file true (iat_thunks pe_file dir)).
  { unfold DumpIatPass. rewrite Huse.
    apply Z.eqb_neq in Hiat. rewrite Hiat.
    apply is_empty_not_nil in Hnonempty. rewrite Hnonempty.
    cbn [andb negb app]. f_equal.
    rewrite DumpIltThunks_count.
    rewrite Nat.min_l by lia.
    rewrite DumpIatThunks_valid_ilt_short by assumption.
    rewrite Hilt, orb_true_r. reflexivity. }
  rewrite Hpass. split; [ reflexivity | ].
  cbn [recorded]. apply recorded_dumped_bound.
Qed.

(** X4 on a descriptor with two ILT thunks and the IAT values [0x11111111]
    and [0xFFFFFFFF]. *)
Lemma iat_pass_matching_tables_witness :
  let pass :=
    DumpIatPass matched_image matched_dir
      (snd (DumpIltThunks matched_image 0
              (ilt_thunks matched_image matched_dir))) in
  pass =
    Wcout LImportThunksIAT ::
    flat_map (fun thunk => [Wcout LNewline; Wcout (LFunction (u1 thunk))])
      (iat_thunks matched_image matched_dir) /\
  recorded pass = [].
Proof.
  apply (iat_pass_matching_tables matched_image matched_dir).
  - reflexivity.
  - discriminate.
  - reflexivity.
  - discriminate.
  - vm_compute. apply Nat.le_refl.
  - vm_compute. lia.
Defined.

(** X5.  With a mappable ILT RVA the separate IAT pass is bounded by the
    counter the structural walk leaves, which is the length of the ILT
    sequence but at most 1001: the pass dumps the first IAT thunks up to that
    number and records the size-mismatch warning exactly when the IAT holds
    more. *)
Theorem iat_pass_bounded_by_ilt_walk :
  forall pe_file dir,
    ilt_valid pe_file dir = true ->
    let n := Nat.min (length (ilt_thunks pe_file dir)) 1001 in
    let walked := firstn n (iat_thunks pe_file dir) in
    snd (DumpIltThunks pe_file 0 (ilt_thunks pe_file dir)) = Z.of_nat n /\
    (length walked <= 1001)%nat /\
    DumpIatPass pe_file dir
      (snd (DumpIltThunks pe_file 0 (ilt_thunks pe_file dir))) =
      (if use_ilt dir && negb (iat dir =? 0)
          && negb (is_empty (iat_thunks pe_file dir))
       then
         Wcout LImportThunksIAT ::
         dumped pe_file
           (is_iat_bound pe_file dir || negb (ilt_empty pe_file dir)) walked
         ++ (if (n <? length (iat_thunks pe_file dir))%nat
             then [Warning WIatSizeMismatch kSuspicious] else [])
       else []).
Proof.
  intros pe_file dir Hvalid n walked. subst walked.
  rewrite DumpIltThunks_count. fold n.
  split; [ reflexivity | ]. split.
  - rewrite length_firstn. subst n. lia.
  - unfold DumpIatPass.
    destruct (use_ilt dir && negb (iat dir =? 0)); [ | reflexivity ].
    cbn [andb].
    destruct (iat_thunks pe_file dir) as [ | thunk thunks ] eqn:Hthunks;
      [ reflexivity | ].
    cbn [is_empty negb app]. f_equal.
    destruct (Nat.ltb_spec n (length (thunk :: thunks))) as [Hlt | Hge].
    + apply DumpIatThunks_valid_ilt_long; assumption.
    + rewrite DumpIatThunks_valid_ilt_short by assumption.
      rewrite firstn_all2 by assumption. symmetry. apply app_nil_r.
Qed.

(** X5 on a descriptor with 1001 ILT thunks and 1002 IAT thunks: the pass
    dumps 1001 of them. *)
Lemma iat_pass_bounded_by_ilt_walk_witness :
  let n := Nat.min (length (ilt_thunks long_ilt_image matched_dir)) 1001 in
  let walked := firstn n (iat_thunks long_ilt_image matched_dir) in
  n = 1001%nat /\
  snd (DumpIltThunks long_ilt_image 0
         (ilt_thunks long_ilt_image matched_dir)) = Z.of_nat n /\
  (length walked <= 1001)%nat /\
  DumpIatPass long_ilt_image matched_dir
    (snd (DumpIltThunks long_ilt_image 0
            (ilt_thunks long_ilt_image matched_dir))) =
    (if use_ilt matched_dir && negb (iat matched_dir =? 0)
        && negb (is_empty (iat_thunks long_ilt_image matched_dir))
     then
       Wcout LImportThunksIAT ::
       dumped long_ilt_image
         (is_iat_bound long_ilt_image matched_dir
          || negb (ilt_empty long_ilt_image matched_dir)) walked
       ++ (if (n <? length (iat_thunks long_ilt_image matched_dir))%nat
           then [Warning WIatSizeMismatch kSuspicious] else [])
     else []).
Proof.
  split; [ vm_compute; reflexivity | ].
  apply (iat_pass_bounded_by_ilt_walk long_ilt_image matched_dir).
  reflexivity.
Defined.

(** ** The file type *)

Section FileType.

Variable pe_file : PeFile.
Variable type : PeFileType.

(** The IAT loop reads [is_iat_bound], and with it the file type, only
    through the flag it passes on; with the counter the structural walk
    leaves, that flag does not depend on it. *)
Lemma DumpIatThunks_with_type dir thunks : forall count,
  (ilt_empty pe_file dir = true -> ilt_valid pe_file dir = true ->
   count = 0) ->
  (ilt_valid pe_file dir = false -> ilt_empty pe_file dir = true) ->
  DumpIatThunks (with_type type pe_file) dir count thunks =
  DumpIatThunks pe_file dir count thunks.
Proof.
  intros count Hcount Hinvalid.
  change (ilt_valid (with_type type pe_file) dir)
    with (ilt_valid pe_file dir) in *.
  destruct (ilt_valid pe_file dir) eqn:Hvalid.
  - destruct (ilt_empty pe_file dir) eqn:Hempty.
    + rewrite (Hcount eq_refl eq_refl).
      destruct thunks as [ | thunk thunks ]; [ reflexivity | ].
      cbn [DumpIatThunks].
      change (ilt_valid (with_type type pe_file) dir)
        with (ilt_valid pe_file dir).
      rewrite Hvalid. reflexivity.
    + clear Hcount. revert count.
      induction thunks as [ | thunk thunks IH ]; intros count;
        [ reflexivity | ].
      cbn [DumpIatThunks].
      change (ilt_valid (with_type type pe_file) dir)
        with (ilt_valid pe_file dir).
      change (ilt_empty (with_type type pe_file) dir)
        with (ilt_empty pe_file dir).
      rewrite Hvalid, Hempty, IH, !orb_true_r. reflexivity.
  - clear Hcount. pose proof (Hinvalid eq_refl) as Hempty. revert count.
    induction thunks as [ | thunk thunks IH ]; intros count;
      [ reflexivity | ].
    cbn [DumpIatThunks].
    change (ilt_valid (with_type type pe_file) dir)
      with (ilt_valid pe_file dir).
    change (ilt_empty (with_type type pe_file) dir)
      with (ilt_empty pe_file dir).
    rewrite Hvalid, Hempty, IH, !andb_false_r. reflexivity.
Qed.

Lemma DumpDirThunks_with_type dir :
  DumpDirThunks (with_type type pe_file) dir = DumpDirThunks pe_file dir.
Proof.
  unfold DumpDirThunks.
  change (ilt_thunks (with_type type pe_file) dir)
    with (ilt_thunks pe_file dir).
  change (DumpIltThunks (with_type type pe_file))
    with (DumpIltThunks pe_file).
  pose proof (DumpIltThunks_count pe_file (ilt_thunks pe_file dir)) as Hcount.
  destruct (DumpIltThunks pe_file 0 (ilt_thunks pe_file dir))
    as [log count].
  cbn [snd] in Hcount. f_equal.
  unfold DumpIatPass.
  change (iat_thunks (with_type type pe_file) dir)
    with (iat_thunks pe_file dir).
  destruct (use_ilt dir) eqn:Huse; [ | reflexivity ].
  destruct (negb (iat dir =? 0)); [ | reflexivity ].
  cbn [andb]. f_equal.
  apply DumpIatThunks_with_type.
  - intros Hempty _. unfold ilt_empty in Hempty.
    apply is_empty_nil in Hempty. rewrite Hempty in Hcount.
    exact Hcount.
  - intros Hinvalid. unfold ilt_empty.
    rewrite ilt_thunks_invalid_ilt by assumption. reflexivity.
Qed.

Lemma DumpImportDir_with_type num dir :
  DumpImportDir (with_type type pe_file) num dir =
  DumpImportDir pe_file num dir.
Proof.
  unfold DumpImportDir, DumpDirBody.
  rewrite DumpDirThunks_with_type. reflexivity.
Qed.

Lemma DumpImportDirs_with_type dirs : forall num,
  DumpImportDirs (with_type type pe_file) num dirs =
  DumpImportDirs pe_file num dirs.
Proof.
  induction dirs as [ | dir rest IH ]; intros num; [ reflexivity | ].
  cbn [DumpImportDirs]. rewrite DumpImportDir_with_type.
  destruct (DumpImportDir pe_file num dir) as [[log ctl] num'].
  destruct ctl; [ rewrite IH | ]; reflexivity.
Qed.

End FileType.

(** X6.  The file type plays no part in the dump: an image mapped in memory
    and the same data read as a file give the same log.  (The flags
    [is_memory_bound] and [is_ilt_bound] are not used, and [is_iat_bound]
    only reaches a thunk when the ILT sequence is not empty, where the flag
    passed is true anyway.) *)
Theorem file_type_is_irrelevant :
  forall pe_file type,
    DumpImports (with_type type pe_file) = DumpImports pe_file.
Proof.
  intros pe_file type. unfold DumpImports.
  change (ImportDirList (with_type type pe_file))
    with (ImportDirList pe_file).
  rewrite DumpImportDirs_with_type. reflexivity.
Qed.

(** ** Well-formed tables *)

Section WellFormed.

Variable pe_file : PeFile.

Lemma DumpDirStamps_well_formed dir :
  well_formed pe_file dir -> recorded (DumpDirStamps pe_file dir) = [].
Proof.
  intros (_ & _ & Hstamp & Hchain & _). unfold DumpDirStamps.
  assert (Hcond :
            negb (GetForwarderChain dir =? 0)
            && negb (GetForwarderChain dir =? static_cast_DWORD (-1))
            = false).
  { destruct Hchain as [-> | ->]; [ reflexivity | ].
    rewrite Z.eqb_refl. apply andb_false_r. }
  rewrite Hcond.
  destruct (Z.eqb_spec (GetTimeDateStamp dir) (static_cast_DWORD (-1)))
    as [Heq | _]; [ | reflexivity ].
  destruct (ilt_valid pe_file dir) eqn:Hvalid; [ reflexivity | ].
  unfold HasValidNonEmptyBoundImportDescList.
  rewrite (Hstamp Heq eq_refl). reflexivity.
Qed.

Lemma DumpDirThunks_well_formed dir :
  well_formed pe_file dir ->
  DumpThunksHeading pe_file dir = [Wcout (LImportThunks (use_ilt dir))] /\
  DumpDirThunks pe_file dir =
    dumped pe_file false (ilt_thunks pe_file dir) ++
    (if use_ilt dir && negb (iat dir =? 0)
     then Wcout LImportThunksIAT ::
          dumped pe_file true (iat_thunks pe_file dir)
     else []).
Proof.
  intros (_ & Hiat & _ & _ & _ & Hilt & Hceiling & _ & Hshorter).
  assert (Hempty : ilt_empty pe_file dir = false)
    by (apply is_empty_not_nil; exact Hilt).
  split.
  - unfold DumpThunksHeading. rewrite Hempty. reflexivity.
  - unfold DumpDirThunks. rewrite DumpIltThunks_short by lia.
    f_equal. unfold DumpIatPass.
    destruct (use_ilt dir) eqn:Huse; [ | reflexivity ].
    destruct (negb (iat dir =? 0)); [ | reflexivity ].
    cbn [andb].
    apply is_empty_not_nil in Hiat. rewrite Hiat. cbn [negb app]. f_equal.
    assert (Hvalid : ilt_valid pe_file dir = true).
    { destruct (ilt_valid pe_file dir) eqn:Hvalid; [ reflexivity | ].
      exfalso. apply Hilt. apply ilt_thunks_invalid_ilt; assumption. }
    rewrite Z.add_0_l.
    rewrite DumpIatThunks_valid_ilt_short by auto.
    rewrite Hempty, orb_true_r. reflexivity.
Qed.

Lemma DumpDirBody_well_formed dir :
  well_formed pe_file dir -> recorded (DumpDirBody pe_file dir) = [].
Proof.
  intros Hwf. unfold DumpDirBody.
  destruct (DumpDirThunks_well_formed dir Hwf) as [-> ->].
  rewrite !recorded_app, DumpDirStamps_well_formed by assumption.
  destruct Hwf as (_ & _ & _ & _ & Hname & _ & _ & Hnamed & _).
  rewrite recorded_dumped_named by assumption.
  unfold DumpDirName.
  destruct (GetName dir); [ | congruence ].
  destruct (use_ilt dir && negb (iat dir =? 0)); [ | reflexivity ].
  cbn [recorded app]. apply recorded_dumped_bound.
Qed.

Lemma DumpImportDirs_well_formed dirs : forall num,
  0 <= num ->
  num + Z.of_nat (length dirs) <= 1000 ->
  Forall (well_formed pe_file) dirs ->
  DumpImportDirs pe_file num dirs =
  flat_map (fun dir => Wcout LNewline :: DumpDirBody pe_file dir) dirs.
Proof.
  induction dirs as [ | dir rest IH ]; intros num Hnum Hbound Hwf;
    [ reflexivity | ].
  inversion Hwf as [ | d ds Hdir Hrest ]; subst d ds.
  cbn [length] in Hbound. cbn [DumpImportDirs flat_map].
  rewrite DumpImportDir_processed
    by (destruct Hdir as (Htls & Hiat & _); repeat split;
        [ assumption | assumption | lia ]).
  unfold static_cast_DWORD. rewrite Z.mod_small by lia.
  rewrite IH by (try assumption; lia). reflexivity.
Qed.

Lemma recorded_well_formed dirs :
  Forall (well_formed pe_file) dirs ->
  recorded
    (flat_map (fun dir => Wcout LNewline :: DumpDirBody pe_file dir) dirs)
  = [].
Proof.
  induction 1 as [ | dir rest Hdir _ IH ]; [ reflexivity | ].
  cbn [flat_map]. rewrite recorded_app, IH. cbn [recorded].
  rewrite DumpDirBody_well_formed by assumption. reflexivity.
Qed.

(** Once the counter plus the descriptors that are not skipped reaches 1000,
    the next descriptor that is not skipped ends the loop. *)
Lemma DumpImportDirs_ceiling pre dir post : forall num,
  0 <= num ->
  Forall (fun d => IsTlsAoiTerminated d = false) pre ->
  num + Z.of_nat (length (filter (fun d => negb (skipped pe_file d)) pre))
    = 1000 ->
  IsTlsAoiTerminated dir = false ->
  skipped pe_file dir = false ->
  DumpImportDirs pe_file num (pre ++ dir :: post) =
  DumpImportDirs pe_file num pre ++
  [Wcout LNewline; Warning WImportDirCeiling kUnsupported].
Proof.
  intros num Hnum Htls Hcount Hdir Hskipped.
  apply is_empty_not_nil in Hskipped.
  revert num Hnum Hcount.
  induction Htls as [ | d pre Hd _ IH ]; intros num Hnum Hcount.
  - cbn [filter length] in Hcount.
    replace num with 1000 by lia.
    cbn [app DumpImportDirs]. rewrite DumpImportDir_ceiling by assumption.
    reflexivity.
  - cbn [filter] in Hcount. unfold skipped in Hcount at 1.
    cbn [app DumpImportDirs].
    destruct (iat_thunks pe_file d) as [ | thunk thunks ] eqn:Hiat.
    + rewrite DumpImportDir_skipped by assumption.
      cbn [is_empty negb] in Hcount.
      rewrite IH by assumption. apply app_assoc.
    + cbn [is_empty negb length] in Hcount.
      rewrite DumpImportDir_processed
        by (repeat split; [ assumption | rewrite Hiat; discriminate | lia ]).
      unfold static_cast_DWORD. rewrite Z.mod_small by lia.
      rewrite IH by lia. apply app_assoc.
Qed.

End WellFormed.

(** X7.  A table of at most 1000 descriptors that are all well formed is
    dumped descriptor by descriptor, in order and in full, and not a single
    warning is recorded; each descriptor has all thunks of its structural
    sequence dumped unbound and, when it uses an ILT and has a non-zero IAT
    RVA, all thunks of its IAT dumped as bound addresses. *)
Theorem well_formed_table_no_warnings :
  forall pe_file,
    ImportDirList pe_file <> [] ->
    (length (ImportDirList pe_file) <= 1000)%nat ->
    Forall (well_formed pe_file) (ImportDirList pe_file) ->
    DumpImports pe_file =
      Wcout LImportDirs ::
      flat_map (fun dir => Wcout LNewline :: DumpDirBody pe_file dir)
        (ImportDirList pe_file) /\
    recorded (DumpImports pe_file) = [] /\
    Forall (fun dir =>
              DumpDirThunks pe_file dir =
              dumped pe_file false (ilt_thunks pe_file dir) ++
              (if use_ilt dir && negb (iat dir =? 0)
               then Wcout LImportThunksIAT ::
                    dumped pe_file true (iat_thunks pe_file dir)
               else []))
      (ImportDirList pe_file).
Proof.
  intros pe_file Hnonempty Hlength Hwf.
  assert (Hlog :
            DumpImports pe_file =
            Wcout LImportDirs ::
            flat_map (fun dir => Wcout LNewline :: DumpDirBody pe_file dir)
              (ImportDirList pe_file)).
  { unfold DumpImports. apply is_empty_not_nil in Hnonempty.
    rewrite Hnonempty. cbn [negb app]. f_equal.
    apply DumpImportDirs_well_formed; [ lia | lia | assumption ]. }
  split; [ exact Hlog | ]. split.
  - rewrite Hlog. cbn [recorded]. apply recorded_well_formed. assumption.
  - eapply Forall_impl; [ | exact Hwf ].
    intros dir Hdir. apply DumpDirThunks_well_formed. assumption.
Qed.

Lemma matched_dir_well_formed : well_formed matched_image matched_dir.
Proof.
  unfold well_formed.
  change (ilt_thunks matched_image matched_dir)
    with [{| u1 := 0x3000 |}; {| u1 := 0x80000005 |}].
  change (iat_thunks matched_image matched_dir)
    with [{| u1 := 0x11111111 |}; {| u1 := 0xFFFFFFFF |}].
  split; [ reflexivity | ].
  split; [ discriminate | ].
  split; [ intros Hstamp; vm_compute in Hstamp; discriminate | ].
  split; [ left; reflexivity | ].
  split; [ discriminate | ].
  split; [ discriminate | ].
  split; [ cbn [length]; lia | ].
  split; [ | intros _; apply Nat.le_refl ].
  apply Forall_forall. intros thunk Hthunk. vm_compute in Hthunk.
  destruct Hthunk as [<- | [<- | []]].
  - right. split; discriminate.
  - left. reflexivity.
Qed.

(** X7 on a table of two well-formed descriptors. *)
Lemma well_formed_table_no_warnings_witness :
  DumpImports matched_image =
    Wcout LImportDirs ::
    flat_map (fun dir => Wcout LNewline :: DumpDirBody matched_image dir)
      (ImportDirList matched_image) /\
  recorded (DumpImports matched_image) = [] /\
  Forall (fun dir =>
            DumpDirThunks matched_image dir =
            dumped matched_image false (ilt_thunks matched_image dir) ++
            (if use_ilt dir && negb (iat dir =? 0)
             then Wcout LImportThunksIAT ::
                  dumped matched_image true (iat_thunks matched_image dir)
             else []))
    (ImportDirList matched_image).
Proof.
  apply (well_formed_table_no_warnings matched_image).
  - discriminate.
  - cbn [matched_image sample_image ImportDirList length]. lia.
  - constructor; [ apply matched_dir_well_formed | ].
    constructor; [ apply matched_dir_well_formed | constructor ].
Defined.

(** X8.  The descriptor that follows 1000 descriptors that were not skipped
    (and is itself neither skipped nor the virtual terminator) is not
    dumped: the loop records the Unsupported ceiling warning in its place and
    ends, so that nothing of the rest of the table reaches the log. *)
Theorem descriptor_ceiling_ends_enumeration :
  forall pe_file pre dir post,
    Forall (fun d => IsTlsAoiTerminated d = false) pre ->
    length (filter (fun d => negb (skipped pe_file d)) pre) = 1000%nat ->
    IsTlsAoiTerminated dir = false ->
    skipped pe_file dir = false ->
    DumpImportDirs pe_file 0 (pre ++ dir :: post) =
      DumpImportDirs pe_file 0 pre ++
      [Wcout LNewline; Warning WImportDirCeiling kUnsupported] /\
    (forall t,
       count_warning WImportDirCeiling t (DumpImportDirs pe_file 0 pre)
       = 0%nat).
Proof.
  intros pe_file pre dir post Htls Hcount Hdir Hskipped. split.
  - apply DumpImportDirs_ceiling; try assumption; lia.
  - intros t. eapply warns_only_count.
    + apply DumpImportDirs_below_ceiling; lia.
    + simpl. intuition discriminate.
Qed.

(** X8 on a table of 1000 processed descriptors followed by two more. *)
Lemma descriptor_ceiling_ends_enumeration_witness :
  DumpImportDirs (crowded_image 1002) 0
    (repeat (descriptor 0 0 0x2000) 1000 ++
     descriptor 0 0 0x2000 :: [descriptor 0 0 0x2000]) =
    DumpImportDirs (crowded_image 1002) 0
      (repeat (descriptor 0 0 0x2000) 1000) ++
    [Wcout LNewline; Warning WImportDirCeiling kUnsupported] /\
  (forall t,
     count_warning WImportDirCeiling t
       (DumpImportDirs (crowded_image 1002) 0
          (repeat (descriptor 0 0 0x2000) 1000)) = 0%nat).
Proof.
  apply (descriptor_ceiling_ends_enumeration (crowded_image 1002)).
  - apply Forall_forall. intros d Hd. apply repeat_spec in Hd.
    subst d. reflexivity.
  - vm_compute. reflexivity.
  - reflexivity.
  - reflexivity.
Defined.

(** ** The type of each warning *)

Section Severity.

Variable pe_file : PeFile.

Lemma typed_app (a b : list Output) : typed a -> typed b -> typed (a ++ b).
Proof. intros Ha Hb. apply Forall_app. split; assumption. Qed.

Lemma DumpImportThunk_typed thunk b :
  typed (DumpImportThunk pe_file thunk b).
Proof.
  unfold typed, warnings_all, DumpImportThunk. cbv zeta.
  destruct b; [ | destruct (ByOrdinal thunk) ];
    [ | | destruct (GetHint pe_file (GetAddressOfData thunk));
          [ destruct (GetThunkName pe_file (GetAddressOfData thunk)) | ] ];
    repeat (apply Forall_cons; [ first [ exact I | reflexivity ] | ]);
    apply Forall_nil.
Qed.

Lemma DumpIltThunks_typed thunks : forall count,
  typed (fst (DumpIltThunks pe_file count thunks)).
Proof.
  induction thunks as [ | thunk thunks IH ]; intros count;
    [ apply Forall_nil | ].
  cbn [DumpIltThunks]. destruct (count =? 1000).
  - apply Forall_cons; [ reflexivity | apply Forall_nil ].
  - specialize (IH (count + 1)).
    destruct (DumpIltThunks pe_file (count + 1) thunks) as [log count'].
    cbn [fst] in *. apply typed_app; [ apply DumpImportThunk_typed | exact IH ].
Qed.

Lemma DumpIatThunks_typed dir thunks : forall count,
  typed (DumpIatThunks pe_file dir count thunks).
Proof.
  induction thunks as [ | thunk thunks IH ]; intros count;
    [ apply Forall_nil | ].
  cbn [DumpIatThunks]. destruct (ilt_valid pe_file dir && (count =? 0)).
  - apply Forall_cons; [ reflexivity | apply Forall_nil ].
  - apply typed_app; [ apply DumpImportThunk_typed | apply IH ].
Qed.

Lemma DumpDirBody_typed dir : typed (DumpDirBody pe_file dir).
Proof.
  unfold DumpDirBody. repeat apply typed_app.
  - unfold typed, warnings_all, DumpDirStamps.
    destruct (GetTimeDateStamp dir =? static_cast_DWORD (-1));
      [ destruct (negb (ilt_valid pe_file dir)
                  && HasValidNonEmptyBoundImportDescList pe_file) | ];
      destruct (negb (GetForwarderChain dir =? 0)
                && negb (GetForwarderChain dir =? static_cast_DWORD (-1)));
      cbn [app];
      repeat (apply Forall_cons; [ first [ exact I | reflexivity ] | ]);
      apply Forall_nil.
  - unfold typed, warnings_all, DumpDirName.
    destruct (GetName dir);
      repeat (apply Forall_cons; [ first [ exact I | reflexivity ] | ]);
      apply Forall_nil.
  - unfold typed, warnings_all, DumpThunksHeading.
    destruct (ilt_empty pe_file dir);
      (apply Forall_cons; [ first [ exact I | reflexivity ] | ]);
      apply Forall_nil.
  - unfold DumpDirThunks.
    pose proof (DumpIltThunks_typed (ilt_thunks pe_file dir) 0) as Hilt.
    destruct (DumpIltThunks pe_file 0 (ilt_thunks pe_file dir))
      as [log count].
    apply typed_app; [ exact Hilt | ].
    unfold DumpIatPass.
    destruct (use_ilt dir && negb (iat dir =? 0)); [ | apply Forall_nil ].
    apply typed_app; [ | apply DumpIatThunks_typed ].
    destruct (negb (is_empty (iat_thunks pe_file dir)));
      [ apply Forall_cons; [ exact I | apply Forall_nil ] | apply Forall_nil ].
Qed.

Lemma DumpImportDir_typed num dir :
  typed (fst (fst (DumpImportDir pe_file num dir))).
Proof.
  unfold DumpImportDir.
  destruct (IsTlsAoiTerminated dir);
    [ | destruct (is_empty (iat_thunks pe_file dir));
        [ | destruct (num =? 1000) ] ];
    cbn [fst];
    try (apply Forall_cons; [ exact I | ];
         apply Forall_cons; [ reflexivity | apply Forall_nil ]).
  apply Forall_cons; [ exact I | apply DumpDirBody_typed ].
Qed.

Lemma DumpImportDirs_typed dirs : forall num,
  typed (DumpImportDirs pe_file num dirs).
Proof.
  induction dirs as [ | dir rest IH ]; intros num; [ apply Forall_nil | ].
  cbn [DumpImportDirs].
  pose proof (DumpImportDir_typed num dir) as Hiter.
  destruct (DumpImportDir pe_file num dir) as [[log ctl] num'].
  cbn [fst] in Hiter.
  destruct ctl; [ apply typed_app; [ exact Hiter | apply IH ] | exact Hiter ].
Qed.

End Severity.

(** X9.  Every warning of the import dump is recorded with the type that
    belongs to its message: Suspicious for an empty import directory, the
    TLS AOI trick, an empty or invalid IAT or ILT, an unreadable module name
    and an IAT/ILT size mismatch; Unsupported for the two ceilings, new-style
    bound imports with an invalid ILT, an old-style forwarder chain and
    invalid thunk name data. *)
Theorem warning_types_fixed :
  forall pe_file m t,
    In (Warning m t) (DumpImports pe_file) -> t = severity m.
Proof.
  intros pe_file m t Hin.
  assert (Hall : warnings_all (fun m t => t = severity m)
                   (DumpImports pe_file)).
  { unfold DumpImports. apply typed_app; [ | apply DumpImportDirs_typed ].
    destruct (negb (is_empty (ImportDirList pe_file)));
      (apply Forall_cons; [ first [ exact I | reflexivity ] | ]);
      apply Forall_nil. }
  unfold warnings_all in Hall. rewrite Forall_forall in Hall.
  exact (Hall _ Hin).
Qed.

(** X9 on the warning recorded for an unmappable ILT RVA. *)
Lemma warning_types_fixed_witness :
  kSuspicious = severity (WIlt false).
Proof.
  apply (warning_types_fixed (invalid_ilt_image 1) (WIlt false) kSuspicious).
  vm_compute. tauto.
Defined.

(** * [DumpBoundImports] *)

Section BoundImportsFacts.

Variable queries : BoundImportQueries.

Lemma bound_recorded_app (a b : list BoundOutput) :
  bound_recorded (a ++ b) = bound_recorded a ++ bound_recorded b.
Proof.
  induction a as [ | [l | t] a IH ]; simpl; [ reflexivity | exact IH | ].
  now rewrite IH.
Qed.

Lemma module_names_app (a b : list BoundOutput) :
  module_names (a ++ b) = module_names a ++ module_names b.
Proof.
  induction a as [ | [l | t] a IH ]; [ reflexivity | | exact IH ].
  destruct l; cbn [app module_names]; rewrite IH; reflexivity.
Qed.

(** The loop over the forwarder references returns exactly when every name
    is readable, and then writes the names in order. *)
Lemma DumpForwarderRefs_returned dir forwarder_refs :
  snd (DumpForwarderRefs queries dir forwarder_refs) = Returned <->
  Forall (fun forwarder =>
            GetNameForModuleForwarderRef queries dir forwarder <> None)
    forwarder_refs.
Proof.
  induction forwarder_refs as [ | forwarder rest IH ].
  - split; [ constructor | reflexivity ].
  - cbn [DumpForwarderRefs].
    destruct (GetNameForModuleForwarderRef queries dir forwarder)
      as [name | ] eqn:Hname.
    + destruct (DumpForwarderRefs queries dir rest) as [log outcome].
      cbn [snd] in *. rewrite IH. split.
      * intros Hrest. constructor; [ congruence | exact Hrest ].
      * intros Hall. inversion Hall. assumption.
    + cbn [snd]. split; [ discriminate | ].
      intros Hall. inversion Hall. congruence.
Qed.

Lemma DumpForwarderRefs_all_names dir forwarder_refs :
  Forall (fun forwarder =>
            GetNameForModuleForwarderRef queries dir forwarder <> None)
    forwarder_refs ->
  module_names (fst (DumpForwarderRefs queries dir forwarder_refs)) =
  flat_map (fun forwarder =>
              match GetNameForModuleForwarderRef queries dir forwarder with
              | Some s => [s]
              | None => []
              end) forwarder_refs.
Proof.
  induction 1 as [ | forwarder rest Hname _ IH ]; [ reflexivity | ].
  cbn [DumpForwarderRefs flat_map].
  destruct (GetNameForModuleForwarderRef queries dir forwarder)
    as [name | ]; [ | congruence ].
  destruct (DumpForwarderRefs queries dir rest) as [log outcome].
  cbn [fst app module_names] in *. f_equal. exact IH.
Qed.

Lemma DumpForwarderRefs_recorded dir forwarder_refs :
  bound_recorded (fst (DumpForwarderRefs queries dir forwarder_refs)) = [].
Proof.
  induction forwarder_refs as [ | forwarder rest IH ]; [ reflexivity | ].
  cbn [DumpForwarderRefs].
  destruct (GetNameForModuleForwarderRef queries dir forwarder);
    [ | reflexivity ].
  destruct (DumpForwarderRefs queries dir rest) as [log outcome].
  exact IH.
Qed.

Lemma DumpBoundImportDir_returned dir :
  snd (DumpBoundImportDir queries dir) = Returned <-> readable queries dir.
Proof.
  unfold DumpBoundImportDir, readable.
  destruct (GetModuleName queries dir) as [name | ].
  - destruct (GetModuleForwarderRefs queries dir) as [forwarder_refs | ].
    + pose proof (DumpForwarderRefs_returned dir forwarder_refs) as Hrefs.
      destruct (DumpForwarderRefs queries dir forwarder_refs)
        as [log outcome].
      cbn [snd] in *. rewrite Hrefs. split.
      * intros Hall. split; [ discriminate | ].
        exists forwarder_refs. split; [ reflexivity | exact Hall ].
      * intros (_ & refs & [= <-] & Hall). exact Hall.
    + cbn [snd]. split; [ discriminate | ].
      intros (_ & refs & Hrefs & _). discriminate.
  - cbn [snd]. split; [ discriminate | ].
    intros (Hname & _). congruence.
Qed.

Lemma DumpBoundImportDir_names dir :
  readable queries dir ->
  module_names (fst (DumpBoundImportDir queries dir)) = names_of queries dir.
Proof.
  unfold DumpBoundImportDir, readable, names_of.
  intros (Hname & forwarder_refs & -> & Hall).
  destruct (GetModuleName queries dir) as [name | ]; [ | congruence ].
  pose proof (DumpForwarderRefs_all_names dir forwarder_refs Hall) as Hrefs.
  destruct (DumpForwarderRefs queries dir forwarder_refs) as [log outcome].
  cbn [fst] in *. cbn [app module_names]. f_equal.
  rewrite module_names_app, Hrefs.
  destruct (negb (is_empty forwarder_refs)); reflexivity.
Qed.

Lemma DumpBoundImportDir_recorded dir :
  bound_recorded (fst (DumpBoundImportDir queries dir)) = [].
Proof.
  unfold DumpBoundImportDir.
  destruct (GetModuleName queries dir) as [name | ]; [ | reflexivity ].
  destruct (GetModuleForwarderRefs queries dir) as [forwarder_refs | ];
    [ | reflexivity ].
  pose proof (DumpForwarderRefs_recorded dir forwarder_refs) as Hrefs.
  destruct (DumpForwarderRefs queries dir forwarder_refs) as [log outcome].
  cbn [fst] in *. cbn [app bound_recorded].
  rewrite bound_recorded_app, Hrefs.
  destruct (negb (is_empty forwarder_refs)); reflexivity.
Qed.

Lemma DumpBoundImportDirs_returned dirs :
  snd (DumpBoundImportDirs queries dirs) = Returned <->
  Forall (readable queries) dirs.
Proof.
  induction dirs as [ | dir rest IH ].
  - split; [ constructor | reflexivity ].
  - cbn [DumpBoundImportDirs].
    pose proof (DumpBoundImportDir_returned dir) as Hdir.
    destruct (DumpBoundImportDir queries dir) as [log outcome].
    cbn [snd] in Hdir. destruct outcome.
    + destruct (DumpBoundImportDirs queries rest) as [log' outcome'].
      cbn [snd] in *. rewrite IH. split.
      * intros Hrest. constructor; [ apply Hdir; reflexivity | exact Hrest ].
      * intros Hall. inversion Hall. assumption.
    + cbn [snd]. split; [ discriminate | ].
      intros Hall. inversion Hall as [ | d ds Hd _ ]; subst.
      apply Hdir in Hd. discriminate.
Qed.

Lemma DumpBoundImportDirs_names dirs :
  Forall (readable queries) dirs ->
  module_names (fst (DumpBoundImportDirs queries dirs)) =
  flat_map (names_of queries) dirs.
Proof.
  induction 1 as [ | dir rest Hdir _ IH ]; [ reflexivity | ].
  cbn [DumpBoundImportDirs flat_map].
  pose proof (DumpBoundImportDir_names dir Hdir) as Hnames.
  apply DumpBoundImportDir_returned in Hdir.
  destruct (DumpBoundImportDir queries dir) as [log outcome].
  cbn [fst snd] in *. subst outcome.
  destruct (DumpBoundImportDirs queries rest) as [log' outcome'].
  cbn [fst] in *. rewrite module_names_app, Hnames, IH. reflexivity.
Qed.

Lemma DumpBoundImportDirs_recorded dirs :
  bound_recorded (fst (DumpBoundImportDirs queries dirs)) = [].
Proof.
  induction dirs as [ | dir rest IH ]; [ reflexivity | ].
  cbn [DumpBoundImportDirs].
  pose proof (DumpBoundImportDir_recorded dir) as Hdir.
  destruct (DumpBoundImportDir queries dir) as [log outcome].
  cbn [fst] in Hdir. destruct outcome; [ | exact Hdir ].
  destruct (DumpBoundImportDirs queries rest) as [log' outcome'].
  cbn [fst] in *. rewrite bound_recorded_app, Hdir, IH. reflexivity.
Qed.

End BoundImportsFacts.

Lemma DumpBoundImports_recorded nt_headers queries pe_file :
  BoundImportDirList pe_file <> [] ->
  bound_recorded (fst (DumpBoundImports nt_headers queries pe_file)) = [].
Proof.
  intros Hnonempty. unfold DumpBoundImports.
  destruct (negb (HasBoundImportDir nt_headers)); [ reflexivity | ].
  pose proof (DumpBoundImportDirs_recorded queries
                (BoundImportDirList pe_file)) as Hrecorded.
  destruct (DumpBoundImportDirs queries (BoundImportDirList pe_file))
    as [log outcome].
  cbn [fst] in *. rewrite bound_recorded_app, Hrecorded.
  apply is_empty_not_nil in Hnonempty. rewrite Hnonempty. reflexivity.
Qed.

Lemma HasBoundImportDir_spec nt_headers :
  HasBoundImportDir nt_headers = true <->
  11 < GetNumberOfRvaAndSizes nt_headers /\
  GetDataDirectoryVirtualAddress nt_headers 11 <> 0.
Proof.
  unfold HasBoundImportDir, PeDataDir_BoundImport.
  rewrite andb_true_iff, negb_true_iff, Z.eqb_neq, Z.gtb_lt. reflexivity.
Qed.

(** X10.  [HasBoundImportDir] holds exactly when the headers declare more
    than 11 data directories and the address of directory 11 is not zero.
    Without it [DumpBoundImports] writes and records nothing, whatever the
    bound import list holds; with it and an empty list, the whole output is
    the one Suspicious warning; with a non-empty list no warning is ever
    recorded. *)
Theorem bound_imports_warning :
  forall nt_headers queries pe_file,
    (HasBoundImportDir nt_headers = true <->
     11 < GetNumberOfRvaAndSizes nt_headers /\
     GetDataDirectoryVirtualAddress nt_headers 11 <> 0) /\
    (HasBoundImportDir nt_headers = false ->
     DumpBoundImports nt_headers queries pe_file = ([], Returned)) /\
    (HasBoundImportDir nt_headers = true ->
     BoundImportDirList pe_file = [] ->
     DumpBoundImports nt_headers queries pe_file =
       ([BWarning kSuspicious], Returned)) /\
    (BoundImportDirList pe_file <> [] ->
     bound_recorded (fst (DumpBoundImports nt_headers queries pe_file)) = []).
Proof.
  intros nt_headers queries pe_file.
  split; [ apply HasBoundImportDir_spec | ]. split; [ | split ].
  - intros Hnone. unfold DumpBoundImports. rewrite Hnone. reflexivity.
  - intros Hsome Hempty. unfold DumpBoundImports.
    rewrite Hsome, Hempty. reflexivity.
  - apply DumpBoundImports_recorded.
Qed.

(** X10 on headers that declare 16 directories, with and without an address
    for the bound import directory. *)
Lemma bound_imports_warning_witness :
  DumpBoundImports (sample_headers 16 0) sample_queries
    (bound_image [unreadable_entry]) = ([], Returned) /\
  DumpBoundImports (sample_headers 16 0x240) sample_queries (bound_image [])
    = ([BWarning kSuspicious], Returned) /\
  bound_recorded
    (fst (DumpBoundImports (sample_headers 16 0x240) sample_queries
            (bound_image [unreadable_entry]))) = [].
Proof.
  split; [ | split ].
  - apply (bound_imports_warning (sample_headers 16 0) sample_queries
             (bound_image [unreadable_entry])).
    reflexivity.
  - apply (bound_imports_warning (sample_headers 16 0x240) sample_queries
             (bound_image [])); reflexivity.
  - apply (bound_imports_warning (sample_headers 16 0x240) sample_queries
             (bound_image [unreadable_entry])).
    discriminate.
Defined.

(** X11.  When the bound import directory is declared and every read
    succeeds, [DumpBoundImports] returns and the module names it writes are,
    in order, the name of each descriptor followed by the names of its
    forwarder references. *)
Theorem bound_imports_names :
  forall nt_headers queries pe_file,
    HasBoundImportDir nt_headers = true ->
    Forall (readable queries) (BoundImportDirList pe_file) ->
    snd (DumpBoundImports nt_headers queries pe_file) = Returned /\
    module_names (fst (DumpBoundImports nt_headers queries pe_file)) =
      flat_map (names_of queries) (BoundImportDirList pe_file).
Proof.
  intros nt_headers queries pe_file Hsome Hreadable.
  unfold DumpBoundImports. rewrite Hsome. cbn [negb].
  pose proof (DumpBoundImportDirs_names queries _ Hreadable) as Hnames.
  apply DumpBoundImportDirs_returned in Hreadable.
  destruct (DumpBoundImportDirs queries (BoundImportDirList pe_file))
    as [log outcome].
  cbn [fst snd] in *. split; [ exact Hreadable | ].
  rewrite module_names_app, Hnames.
  destruct (negb (is_empty (BoundImportDirList pe_file))); reflexivity.
Qed.

Lemma forwarding_entry_readable : readable sample_queries forwarding_entry.
Proof.
  split; [ discriminate | ].
  exists [sample_forwarder]. split; [ reflexivity | ].
  constructor; [ discriminate | constructor ].
Qed.

(** X11 on two descriptors with one forwarder reference each. *)
Lemma bound_imports_names_witness :
  snd (DumpBoundImports (sample_headers 16 0x240) sample_queries
         (bound_image [forwarding_entry; forwarding_entry])) = Returned /\
  module_names
    (fst (DumpBoundImports (sample_headers 16 0x240) sample_queries
            (bound_image [forwarding_entry; forwarding_entry]))) =
  ["KERNEL32.dll"; "NTDLL.DLL"; "KERNEL32.dll"; "NTDLL.DLL"]%string.
Proof.
  apply (bound_imports_names (sample_headers 16 0x240) sample_queries
           (bound_image [forwarding_entry; forwarding_entry])).
  - reflexivity.
  - constructor; [ apply forwarding_entry_readable | ].
    constructor; [ apply forwarding_entry_readable | constructor ].
Defined.

(** X12.  [DumpBoundImports] has no handler: with the directory declared it
    returns exactly when every read succeeds.  An unreadable name ends it by
    the exception, at a descriptor that is not readable, and no warning is
    recorded for it. *)
Theorem bound_imports_unreadable_name_throws :
  forall nt_headers queries pe_file,
    HasBoundImportDir nt_headers = true ->
    (snd (DumpBoundImports nt_headers queries pe_file) = Returned <->
     Forall (readable queries) (BoundImportDirList pe_file)) /\
    (snd (DumpBoundImports nt_headers queries pe_file) = Threw ->
     bound_recorded (fst (DumpBoundImports nt_headers queries pe_file)) = []
     /\ ~ Forall (readable queries) (BoundImportDirList pe_file)).
Proof.
  intros nt_headers queries pe_file Hsome.
  assert (Hiff :
            snd (DumpBoundImports nt_headers queries pe_file) = Returned <->
            Forall (readable queries) (BoundImportDirList pe_file)).
  { unfold DumpBoundImports. rewrite Hsome. cbn [negb].
    pose proof (DumpBoundImportDirs_returned queries
                  (BoundImportDirList pe_file)) as Hdirs.
    destruct (DumpBoundImportDirs queries (BoundImportDirList pe_file))
      as [log outcome].
    cbn [snd] in *. exact Hdirs. }
  split; [ exact Hiff | ].
  intros Hthrew.
  assert (Hnot : ~ Forall (readable queries) (BoundImportDirList pe_file)).
  { intros Hall. apply Hiff in Hall. congruence. }
  split; [ | exact Hnot ].
  apply DumpBoundImports_recorded.
  intros Hempty. apply Hnot. rewrite Hempty. constructor.
Qed.

(** X12 on a readable descriptor followed by one whose name is unreadable. *)
Lemma bound_imports_unreadable_name_throws_witness :
  snd (DumpBoundImports (sample_headers 16 0x240) sample_queries
         (bound_image [forwarding_entry; unreadable_entry])) = Threw /\
  bound_recorded
    (fst (DumpBoundImports (sample_headers 16 0x240) sample_queries
            (bound_image [forwarding_entry; unreadable_entry]))) = [] /\
  ~ Forall (readable sample_queries)
      (BoundImportDirList (bound_image [forwarding_entry; unreadable_entry])).
Proof.
  split; [ reflexivity | ].
  apply (bound_imports_unreadable_name_throws (sample_headers 16 0x240)
           sample_queries
           (bound_image [forwarding_entry; unreadable_entry])).
  - reflexivity.
  - reflexivity.
Defined.

(** * The module list iterator of [Module.hpp] *)

Section ModuleIterator.

Import HadesMemory.

Variable MakeModule : MemoryMgr -> MODULEENTRY32 -> HadesModule.

(** [n + 1] increments are [n] increments followed by one more. *)
Lemma increments_S n : forall it,
  increments MakeModule (S n) it =
  match increments MakeModule n it with
  | (it', None) => increment MakeModule it'
  | (it', Some e) => (it', Some e)
  end.
Proof.
  induction n as [ | n IH ]; intros it.
  - cbn [increments]. destruct (increment MakeModule it) as [it' [e | ]];
      reflexivity.
  - change (increments MakeModule (S (S n)) it)
      with (match increment MakeModule it with
            | (it', None) => increments MakeModule (S n) it'
            | (it', Some e) => (it', Some e)
            end).
    cbn [increments] in IH |- *.
    destruct (increment MakeModule it) as [it' [e | ]]; [ reflexivity | ].
    apply IH.
Qed.

(** While the snapshot answers with entries, [k] increments leave the
    iterator on the entry of call [k]. *)
Lemma increments_found (it0 : ModuleListIter) (entries : list MODULEENTRY32) :
  calls it0 = 1%nat ->
  (forall k entry,
     nth_error entries k = Some entry ->
     Module32 (m_Snap it0) k = Found entry) ->
  m_Current it0 =
    option_map (MakeModule (m_Memory it0)) (nth_error entries 0) ->
  forall k,
    (k < length entries)%nat ->
    exists it,
      increments MakeModule k it0 = (it, None) /\
      calls it = S k /\
      m_Snap it = m_Snap it0 /\
      m_Memory it = m_Memory it0 /\
      m_Current it =
        option_map (MakeModule (m_Memory it0)) (nth_error entries k).
Proof.
  intros Hcalls Hanswers Hfirst.
  induction k as [ | k IH ]; intros Hk.
  - exists it0. repeat split; assumption.
  - destruct IH as (it & Hrun & Hcount & Hsnap & Hmemory & _); [ lia | ].
    destruct (nth_error entries (S k)) as [entry | ] eqn:Hentry;
      [ | apply nth_error_None in Hentry; lia ].
    rewrite increments_S, Hrun. unfold increment.
    rewrite Hsnap, Hcount, (Hanswers _ _ Hentry), Hmemory.
    eexists. split; [ reflexivity | ]. repeat split.
Qed.

End ModuleIterator.

Import HadesMemory.

(** Once an increment has thrown, further requested increments are not
    made. *)
Lemma increments_error_stable MakeModule it it' e k :
  increments MakeModule k it = (it', Some e) ->
  forall n, (k <= n)%nat -> increments MakeModule n it = (it', Some e).
Proof.
  intros Hthrown n Hn. induction Hn as [ | n _ IH ]; [ exact Hthrown | ].
  rewrite increments_S, IH. reflexivity.
Qed.

(** X13.  A snapshot that answers with the entries of a non-empty module
    list and then with [ERROR_NO_MORE_FILES]: the iterator is constructed on
    the first module, [k] increments put it on module [k] without any
    exception, and the increment after the last module leaves it empty,
    again without exception. *)
Theorem module_iterator_enumerates :
  forall MakeModule (CreateToolhelp32Snapshot : Toolhelp) MyMemory snap entries,
    CreateToolhelp32Snapshot (GetProcessID MyMemory) = inl snap ->
    entries <> [] ->
    (forall k entry,
       nth_error entries k = Some entry -> Module32 snap k = Found entry) ->
    Module32 snap (length entries) = Failed ERROR_NO_MORE_FILES ->
    exists it0,
      construct MakeModule CreateToolhelp32Snapshot MyMemory = inl it0 /\
      forall k,
        (k <= length entries)%nat ->
        exists it,
          increments MakeModule k it0 = (it, None) /\
          dereference it =
            option_map (MakeModule MyMemory) (nth_error entries k).
Proof.
  intros MakeModule create MyMemory snap entries Hcreate Hnonempty Hanswers
    Hend.
  destruct entries as [ | first rest ]; [ congruence | ].
  unfold construct. rewrite Hcreate, (Hanswers 0%nat first eq_refl).
  eexists. split; [ reflexivity | ].
  set (it0 := {| m_Memory := MyMemory; m_Snap := snap; calls := 1;
                 m_Current := Some (MakeModule MyMemory first) |}).
  assert (Hrun := increments_found MakeModule it0 (first :: rest)
                    eq_refl Hanswers eq_refl).
  intros k Hk.
  destruct (Nat.eq_dec k (length (first :: rest))) as [-> | Hne].
  - cbn [length]. destruct (Hrun (length rest)) as
        (it & Hit & Hcount & Hsnap & _); [ cbn [length]; lia | ].
    rewrite increments_S, Hit. unfold increment.
    rewrite Hsnap, Hcount. cbn [m_Snap it0].
    change (S (length rest)) with (length (first :: rest)).
    rewrite Hend. cbn [Z.eqb negb ERROR_NO_MORE_FILES].
    eexists. split; [ reflexivity | ].
    cbn [dereference m_Current].
    assert (Hnone : nth_error (first :: rest) (length (first :: rest)) = None)
      by (apply nth_error_None; lia).
    rewrite Hnone. reflexivity.
  - destruct (Hrun k) as (it & Hit & _ & _ & _ & Hcurrent); [ lia | ].
    exists it. split; [ exact Hit | exact Hcurrent ].
Qed.

(** X13 on a snapshot of three modules. *)
Lemma module_iterator_enumerates_witness :
  exists it0,
    construct module_of_entry (fun _ => inl (snapshot_of sample_entries))
      sample_memory = inl it0 /\
    forall k,
      (k <= length sample_entries)%nat ->
      exists it,
        increments module_of_entry k it0 = (it, None) /\
        dereference it =
          option_map (module_of_entry sample_memory)
            (nth_error sample_entries k).
Proof.
  apply (module_iterator_enumerates module_of_entry
           (fun _ => inl (snapshot_of sample_entries)) sample_memory
           (snapshot_of sample_entries) sample_entries).
  - reflexivity.
  - discriminate.
  - intros k entry Hentry. cbn [snapshot_of Module32]. rewrite Hentry.
    reflexivity.
  - reflexivity.
Defined.

(** X14.  The error paths of the iterator.  When the snapshot cannot be
    created the constructor throws "Could not get module snapshot."; when
    the first call on the snapshot fails, with whatever error (also
    [ERROR_NO_MORE_FILES], a process without modules), it throws "Could not
    get module info.".  When a later call fails with an error other than
    [ERROR_NO_MORE_FILES], the increment that makes it throws "Error
    enumerating module list." with that error code, and the iterator stays
    on the last module it reached. *)
Theorem module_iterator_errors :
  forall MakeModule (CreateToolhelp32Snapshot : Toolhelp) MyMemory,
    (forall LastError,
       CreateToolhelp32Snapshot (GetProcessID MyMemory) = inr LastError ->
       construct MakeModule CreateToolhelp32Snapshot MyMemory =
       inr {| ErrorFunction := "ModuleEnum::First";
              ErrorString := "Could not get module snapshot.";
              ErrorCode := LastError |}) /\
    (forall snap LastError,
       CreateToolhelp32Snapshot (GetProcessID MyMemory) = inl snap ->
       Module32 snap 0 = Failed LastError ->
       construct MakeModule CreateToolhelp32Snapshot MyMemory =
       inr {| ErrorFunction := "ModuleEnum::First";
              ErrorString := "Could not get module info.";
              ErrorCode := LastError |}) /\
    (forall snap entries last LastError n,
       CreateToolhelp32Snapshot (GetProcessID MyMemory) = inl snap ->
       (forall k entry,
          nth_error (entries ++ [last]) k = Some entry ->
          Module32 snap k = Found entry) ->
       Module32 snap (S (length entries)) = Failed LastError ->
       LastError <> ERROR_NO_MORE_FILES ->
       (length entries < n)%nat ->
       exists it0 it,
         construct MakeModule CreateToolhelp32Snapshot MyMemory = inl it0 /\
         increments MakeModule n it0 =
           (it, Some {| ErrorFunction := "ModuleEnum::Next";
                        ErrorString := "Error enumerating module list.";
                        ErrorCode := LastError |}) /\
         dereference it = Some (MakeModule MyMemory last)).
Proof.
  intros MakeModule create MyMemory. split; [ | split ].
  - intros LastError Hcreate. unfold construct. rewrite Hcreate.
    reflexivity.
  - intros snap LastError Hcreate Hfirst. unfold construct.
    rewrite Hcreate, Hfirst. reflexivity.
  - intros snap entries last LastError n Hcreate Hanswers Hfail Hcode Hn.
    assert (Hfirst : exists first,
               nth_error (entries ++ [last]) 0 = Some first).
    { destruct entries; eexists; reflexivity. }
    destruct Hfirst as [first Hfirst].
    unfold construct. rewrite Hcreate, (Hanswers _ _ Hfirst).
    set (it0 := {| m_Memory := MyMemory; m_Snap := snap; calls := 1;
                   m_Current := Some (MakeModule MyMemory first) |}).
    assert (Hcurrent0 :
              m_Current it0 =
              option_map (MakeModule (m_Memory it0))
                (nth_error (entries ++ [last]) 0))
      by (rewrite Hfirst; reflexivity).
    destruct (increments_found MakeModule it0 (entries ++ [last])
                eq_refl Hanswers Hcurrent0 (length entries))
      as (it & Hit & Hcount & Hsnap & _ & Hcurrent).
    { rewrite length_app. cbn [length]. lia. }
    rewrite nth_error_app2, Nat.sub_diag in Hcurrent by lia.
    cbn [nth_error option_map m_Memory it0] in Hcurrent.
    assert (Hthrown :
              increments MakeModule (S (length entries)) it0 =
              ({| m_Memory := m_Memory it; m_Snap := m_Snap it;
                  calls := S (calls it); m_Current := m_Current it |},
               Some {| ErrorFunction := "ModuleEnum::Next";
                       ErrorString := "Error enumerating module list.";
                       ErrorCode := LastError |})).
    { rewrite increments_S, Hit. unfold increment.
      rewrite Hsnap, Hcount. cbn [m_Snap it0]. rewrite Hfail.
      apply Z.eqb_neq in Hcode. rewrite Hcode. reflexivity. }
    eexists. eexists. split; [ reflexivity | ]. split.
    + apply (increments_error_stable _ _ _ _ _ Hthrown). lia.
    + exact Hcurrent.
Qed.

(** X14 on a process whose snapshot cannot be created (error 5), on a
    snapshot without modules, and on a snapshot whose third call fails with
    error 299. *)
Lemma module_iterator_errors_witness :
  construct module_of_entry (fun _ => inr 5) sample_memory =
    inr {| ErrorFunction := "ModuleEnum::First";
           ErrorString := "Could not get module snapshot.";
           ErrorCode := 5 |} /\
  construct module_of_entry (fun _ => inl (snapshot_of [])) sample_memory =
    inr {| ErrorFunction := "ModuleEnum::First";
           ErrorString := "Could not get module info.";
           ErrorCode := ERROR_NO_MORE_FILES |} /\
  exists it0 it,
    construct module_of_entry
      (fun _ => inl {| Module32 := fun k =>
                         match nth_error sample_entries k with
                         | Some entry =>
                             if (k <? 2)%nat then Found entry else Failed 299
                         | None => Failed ERROR_NO_MORE_FILES
                         end |})
      sample_memory = inl it0 /\
    increments module_of_entry 7 it0 =
      (it, Some {| ErrorFunction := "ModuleEnum::Next";
                   ErrorString := "Error enumerating module list.";
                   ErrorCode := 299 |}) /\
    dereference it =
      Some (module_of_entry sample_memory
              (sample_entry 0x77000000 "ntdll.dll")).
Proof.
  split; [ | split ].
  - apply (module_iterator_errors module_of_entry (fun _ => inr 5)
             sample_memory).
    reflexivity.
  - apply (proj1 (proj2 (module_iterator_errors module_of_entry
                           (fun _ => inl (snapshot_of [])) sample_memory))
             (snapshot_of [])); reflexivity.
  - apply (proj2 (proj2 (module_iterator_errors module_of_entry _
                           sample_memory)) _
             [sample_entry 0x400000 "dump.exe"]
             (sample_entry 0x77000000 "ntdll.dll") 299 7%nat eq_refl).
    + intros k entry Hentry. cbn [Module32].
      destruct k as [ | [ | k ] ]; cbn in Hentry |- *;
        [ congruence | congruence | ].
      destruct k; discriminate.
    + reflexivity.
    + discriminate.
    + cbn [length]. lia.
Defined.

(** X15.  A processed descriptor that uses a mappable but empty ILT (its
    first thunk is the sentinel) and has a non-zero IAT RVA gets no thunk
    dumped at all: the heading is the Suspicious "ILT is empty" warning, the
    structural walk is empty, and the IAT pass stops at its first thunk with
    the Suspicious size-mismatch warning. *)
Theorem empty_valid_ilt_hides_iat :
  forall pe_file num dir,
    processed pe_file num dir ->
    use_ilt dir = true ->
    iat dir <> 0 ->
    ilt_valid pe_file dir = true ->
    ilt_thunks pe_file dir = [] ->
    DumpThunksHeading pe_file dir ++ DumpDirThunks pe_file dir =
    [Warning (WIlt true) kSuspicious; Wcout LImportThunksIAT;
     Warning WIatSizeMismatch kSuspicious].
Proof.
  intros pe_file num dir (_ & Hiat_thunks & _) Huse Hiat Hvalid Hilt.
  unfold DumpThunksHeading, DumpDirThunks, DumpIatPass, ilt_empty.
  rewrite Hilt, Hvalid, Huse. apply Z.eqb_neq in Hiat. rewrite Hiat.
  destruct (iat_thunks pe_file dir) as [ | thunk thunks ]; [ congruence | ].
  cbn [is_empty DumpIltThunks andb negb app DumpIatThunks].
  rewrite Hvalid. reflexivity.
Qed.

(** X15 on a descriptor whose ILT starts with the sentinel. *)
Lemma empty_valid_ilt_hides_iat_witness :
  DumpThunksHeading (sample_image [0] [0x3000; 0] [matched_dir] [])
    matched_dir ++
  DumpDirThunks (sample_image [0] [0x3000; 0] [matched_dir] []) matched_dir =
  [Warning (WIlt true) kSuspicious; Wcout LImportThunksIAT;
   Warning WIatSizeMismatch kSuspicious].
Proof.
  apply (empty_valid_ilt_hides_iat
           (sample_image [0] [0x3000; 0] [matched_dir] []) 0 matched_dir).
  - unfold processed. repeat split; try reflexivity; discriminate.
  - reflexivity.
  - discriminate.
  - reflexivity.
  - reflexivity.
Defined.
